(** * Address-Work: the address normalisation engine, embedded and verified

    Sources embedded here:
    - [address_standardizer.py]            (module [Plain] below),
    - [address_standardizer_with_usps.py]  lines 1-541 (module [Usps]),
    - the column parser appended to that file, lines 543-869
      (module [Parser], the part that defines [parse_full_address]).
    The helpers whose text is the same in the three copies
    ([upper_and_cleanup], [standardize_zip], [extract_unit], ...) are written
    once; what differs from copy to copy (the tables and the PO Box branch of
    the normaliser) is a parameter of section [Engine].

    Text model.  A Python [str] is a [list ascii].  The character classes
    ([\w], [\s], [\d], [str.upper], [str.isalpha], [str.strip]) are Python's
    on the ASCII range 0..127; a code above 127 is classified as a symbol
    (not a word character, not white space, without case), so the results
    below speak about ASCII text.

    Patterns.  The [re] patterns of the program are terms of the type [re]
    and are run by a backtracking matcher with Python's order of choices.
    Exceptions.  List indexing in [parse_full_address] returns in the
    monad [res], where it can raise [IndexError]. *)

From Stdlib Require Import Ascii String Bool Arith Lia ZArith.
From Stdlib Require Import DecimalString DecimalNat List.
Import ListNotations.

Definition str : Type := list ascii.

(** String literals of the source are written [L "..."]. *)
Definition L (s : string) : str := list_ascii_of_string s.

(* ------------------------------------------------------------------ *)
(** ** Characters *)

Definition code (c : ascii) : nat := nat_of_ascii c.

Definition between (lo hi : nat) (c : ascii) : bool :=
  (lo <=? code c) && (code c <=? hi).

(** [str.isspace] on ASCII: TAB LF VT FF CR, FS GS RS US, and the blank. *)
Definition is_space (c : ascii) : bool := between 9 13 c || between 28 32 c.
Definition is_digit (c : ascii) : bool := between 48 57 c.
Definition is_upper (c : ascii) : bool := between 65 90 c.
Definition is_lower (c : ascii) : bool := between 97 122 c.
Definition is_alpha (c : ascii) : bool := is_upper c || is_lower c.
Definition is_alnum (c : ascii) : bool := is_alpha c || is_digit c.

(** [\w]: alphanumeric or the underscore (code 95). *)
Definition is_word (c : ascii) : bool := is_alnum c || (code c =? 95).

Definition chr_eqb (a b : ascii) : bool := Ascii.eqb a b.

Definition to_upper (c : ascii) : ascii :=
  if is_lower c then ascii_of_nat (code c - 32) else c.

Definition SP : ascii := " "%char.
Definition NL : ascii := ascii_of_nat 10.
Definition CR : ascii := ascii_of_nat 13.

(* ------------------------------------------------------------------ *)
(** ** Python string operations *)

Fixpoint str_eqb (a b : str) : bool :=
  match a, b with
  | [], [] => true
  | x :: a', y :: b' => chr_eqb x y && str_eqb a' b'
  | _, _ => false
  end.

(** Truth value of a string: [bool(s)]. *)
Definition truthy (s : str) : bool :=
  match s with [] => false | _ :: _ => true end.

(** Truth value of an [Optional[str]]. *)
Definition truthy_opt (o : option str) : bool :=
  match o with None => false | Some s => truthy s end.

(** Truth value of a list: [bool(l)]. *)
Definition truthy_list {A} (l : list A) : bool :=
  match l with [] => false | _ :: _ => true end.

(** [x or ""] for an [Optional[str]]. *)
Definition or_empty (o : option str) : str :=
  match o with
  | Some s => if truthy s then s else []
  | None => []
  end.

Fixpoint lstrip (s : str) : str :=
  match s with
  | c :: s' => if is_space c then lstrip s' else s
  | [] => []
  end.

Fixpoint rstrip (s : str) : str :=
  match s with
  | [] => []
  | c :: s' =>
      match rstrip s' with
      | [] => if is_space c then [] else [c]
      | t => c :: t
      end
  end.

(** [s.strip()] *)
Definition py_strip (s : str) : str := rstrip (lstrip s).

(** [s.upper()] *)
Definition py_upper (s : str) : str := map to_upper s.

(** [s.isalpha()]: non-empty and alphabetic throughout. *)
Definition py_isalpha (s : str) : bool := truthy s && forallb is_alpha s.

Fixpoint starts_with (p s : str) : bool :=
  match p, s with
  | [], _ => true
  | x :: p', y :: s' => chr_eqb x y && starts_with p' s'
  | _ :: _, [] => false
  end.

(** [s.replace(old, new)] for a non-empty [old]: occurrences are taken left
    to right and do not overlap.  [skip] counts the characters of an
    occurrence that are still to be dropped. *)
Fixpoint replace_from (old new s : str) (skip : nat) : str :=
  match s with
  | [] => []
  | c :: s' =>
      match skip with
      | S n => replace_from old new s' n
      | O =>
          if starts_with old s
          then new ++ replace_from old new s' (length old - 1)
          else c :: replace_from old new s' 0
      end
  end.

Definition py_replace (old new s : str) : str := replace_from old new s 0.

(** [s.split(sep)] for a one-character separator: never the empty list. *)
Fixpoint split_by (sep : ascii -> bool) (s : str) : list str :=
  match s with
  | [] => [[]]
  | c :: s' =>
      if sep c then [] :: split_by sep s'
      else match split_by sep s' with
           | h :: t => (c :: h) :: t
           | [] => [[c]]
           end
  end.

Definition py_split_comma (s : str) : list str :=
  split_by (chr_eqb ","%char) s.

(** [s.split()]: the maximal runs of non-blank characters. *)
Definition py_split (s : str) : list str :=
  filter truthy (split_by is_space s).

(** [sep.join(l)] *)
Fixpoint py_join (sep : str) (l : list str) : str :=
  match l with
  | [] => []
  | [x] => x
  | x :: l' => x ++ sep ++ py_join sep l'
  end.

(** Slices: [s[:n]], [s[n:]] and [l[:-n]]. *)
Definition upto {A} (n : nat) (l : list A) : list A := firstn n l.
Definition from {A} (n : nat) (l : list A) : list A := skipn n l.
Definition drop_last {A} (n : nat) (l : list A) : list A :=
  firstn (length l - n) l.

(* ------------------------------------------------------------------ *)
(** ** Regular expressions: the fragment of [re] the program uses

    Every repetition in the program's patterns ranges over a one-character
    class, so [Star] takes a class.  Matching is Python's: backtracking,
    alternatives in order, repetitions greedy, the leftmost match wins. *)

Inductive re : Type :=
| Eps : re
| Chr : (ascii -> bool) -> re
| Seq : re -> re -> re
| Alt : re -> re -> re
| Star : (ascii -> bool) -> re
| Bnd : re
| Eos : re
| Grp : string -> re -> re.

Definition caps : Type := list (string * str).

(** A continuation receives the character before the position, the rest of
    the subject and the groups captured so far. *)
Definition cont (R : Type) : Type := option ascii -> str -> caps -> option R.

Definition wordb (o : option ascii) : bool :=
  match o with Some c => is_word c | None => false end.

(** [\b]: exactly one side is a word character. *)
Definition at_boundary (prev : option ascii) (s : str) : bool :=
  xorb (wordb prev) (wordb (hd_error s)).

(** [$] without MULTILINE: the end, or just before a final newline. *)
Definition at_end (s : str) : bool :=
  match s with
  | [] => true
  | [c] => chr_eqb c NL
  | _ => false
  end.

Fixpoint star {R} (p : ascii -> bool) (k : cont R)
    (prev : option ascii) (s : str) (g : caps) : option R :=
  match s with
  | c :: s' =>
      if p c then
        match star p k (Some c) s' g with
        | Some r => Some r
        | None => k prev s g
        end
      else k prev s g
  | [] => k prev s g
  end.

Fixpoint run {R} (r : re) (k : cont R)
    (prev : option ascii) (s : str) (g : caps) : option R :=
  match r with
  | Eps => k prev s g
  | Chr p =>
      match s with
      | c :: s' => if p c then k (Some c) s' g else None
      | [] => None
      end
  | Seq a b => run a (run b k) prev s g
  | Alt a b =>
      match run a k prev s g with
      | Some x => Some x
      | None => run b k prev s g
      end
  | Star p => star p k prev s g
  | Bnd => if at_boundary prev s then k prev s g else None
  | Eos => if at_end s then k prev s g else None
  | Grp n a =>
      run a (fun prev' s' g' =>
               k prev' s' ((n, firstn (length s - length s') s) :: g'))
          prev s g
  end.

(** The match anchored at the current position: its length and groups. *)
Definition match_here (r : re) (prev : option ascii) (s : str)
  : option (nat * caps) :=
  run r (fun _ s' g => Some (length s - length s', g)) prev s [].

Record rmatch : Type := MkMatch {
  m_start : nat;
  m_end : nat;
  m_caps : caps
}.

(** [pattern.search(s)]: the first position with a match. *)
Fixpoint search_from (r : re) (prev : option ascii) (s : str) (i : nat)
  : option rmatch :=
  match match_here r prev s with
  | Some (n, g) => Some (MkMatch i (i + n) g)
  | None =>
      match s with
      | [] => None
      | c :: s' => search_from r (Some c) s' (S i)
      end
  end.

Definition re_search (r : re) (s : str) : option rmatch :=
  search_from r None s 0.

Definition is_some {A} (o : option A) : bool :=
  match o with Some _ => true | None => false end.

Fixpoint lookup_group (n : string) (g : caps) : option str :=
  match g with
  | [] => None
  | (k, v) :: g' => if String.eqb n k then Some v else lookup_group n g'
  end.

(** [m.group(name)], for a group that took part in the match. *)
Definition group (m : rmatch) (n : string) : str :=
  match lookup_group n (m_caps m) with Some v => v | None => [] end.

(** [pattern.sub(repl, s)] for a pattern that never matches the empty
    string (true of every pattern substituted in this program): matches are
    replaced left to right; [skip] counts the characters of the current
    match that are still to be dropped. *)
Fixpoint sub_from (r : re) (repl : str) (prev : option ascii) (s : str)
    (skip : nat) : str :=
  match s with
  | [] => []
  | c :: s' =>
      match skip with
      | S n => sub_from r repl (Some c) s' n
      | O =>
          match match_here r prev s with
          | Some (S n, _) => repl ++ sub_from r repl (Some c) s' n
          | _ => c :: sub_from r repl (Some c) s' 0
          end
      end
  end.

Definition re_sub (r : re) (repl : str) (s : str) : str :=
  sub_from r repl None s 0.

(** Pattern builders. *)
Definition chr (c : ascii) : re := Chr (chr_eqb c).

(** A literal character under IGNORECASE. *)
Definition ichr (c : ascii) : re :=
  Chr (fun x => chr_eqb (to_upper x) (to_upper c)).

Definition seqs (l : list re) : re := fold_right Seq Eps l.

Definition Opt (r : re) : re := Alt r Eps.
Definition Plus (p : ascii -> bool) : re := Seq (Chr p) (Star p).

(** [re.escape(w)]: the literal text [w]. *)
Definition lit (w : str) : re := seqs (map chr w).
Definition ilit (w : str) : re := seqs (map ichr w).

(** [a|b|...]: a non-empty list of alternatives, tried in order. *)
Fixpoint alts (l : list re) : re :=
  match l with
  | [] => Chr (fun _ => false)
  | [a] => a
  | a :: l' => Alt a (alts l')
  end.

(* ------------------------------------------------------------------ *)
(** ** Exceptions of the parsing phase *)

Inductive exn : Type := IndexError.

Inductive res (A : Type) : Type :=
| Ok : A -> res A
| Raise : exn -> res A.

Arguments Ok {A} _.
Arguments Raise {A} _.

Definition bind {A B} (c : res A) (k : A -> res B) : res B :=
  match c with
  | Ok a => k a
  | Raise e => Raise e
  end.

Notation "x <- c ;; k" := (bind c (fun x => k))
  (at level 61, c at next level, right associativity).

(** [l[-n]] for [n >= 1]: raises [IndexError] when [l] has fewer than [n]
    items. *)
Definition index_back {A} (l : list A) (n : nat) : res A :=
  if (1 <=? n) && (n <=? length l)
  then match nth_error l (length l - n) with
       | Some x => Ok x
       | None => Raise IndexError
       end
  else Raise IndexError.

(** [l[i]] for [i >= 0]. *)
Definition index_at {A} (l : list A) (i : nat) : res A :=
  match nth_error l i with
  | Some x => Ok x
  | None => Raise IndexError
  end.

(* ------------------------------------------------------------------ *)
(** ** Module-level patterns and constants shared by the three copies *)

(** [UNIT_DESIGNATORS] *)
Definition UNIT_DESIGNATORS : list str :=
  map L ["APT"; "APARTMENT"; "UNIT"; "STE"; "SUITE"; "FL"; "FLOOR"; "RM";
         "ROOM"; "#"]%string.

(** [NON_ALNUM_RE = re.compile(r"[^\w\s#-]")] *)
Definition NON_ALNUM_RE : re :=
  Chr (fun c => negb (is_word c || is_space c
                      || chr_eqb c "#"%char || chr_eqb c "-"%char)).

(** [MULTISPACE_RE = re.compile(r"\s+")] *)
Definition MULTISPACE_RE : re := Plus is_space.

(** [POBOX_RE = re.compile(r"\bP\.?O\.?\s*BOX\b", re.IGNORECASE)] *)
Definition POBOX_RE : re :=
  seqs [Bnd; ichr "P"; Opt (chr "."); ichr "O"; Opt (chr ".");
        Star is_space; ilit (L "BOX"); Bnd].

(** The class [[A-Z0-9-]] under IGNORECASE. *)
Definition unit_value_char (c : ascii) : bool :=
  is_upper c || is_lower c || is_digit c || chr_eqb c "-"%char.

(** ["|".join(re.escape(x) for x in UNIT_DESIGNATORS)] under IGNORECASE *)
Definition designator_alts : re := alts (map ilit UNIT_DESIGNATORS).

(** The part the two unit patterns share:
    [(?P<designator>(...))\.?\s*#?:?\s*(?P<value>[A-Z0-9-]+)] *)
Definition unit_core : list re :=
  [Grp "designator" designator_alts; Opt (chr "."); Star is_space;
   Opt (chr "#"); Opt (chr ":"); Star is_space;
   Grp "value" (Plus unit_value_char)].

(** [trailing_unit_re]: [\b] core [$] *)
Definition trailing_unit_re : re := seqs ([Bnd] ++ unit_core ++ [Eos]).

(** [mid_unit_re]: [(?:,|\s)\s*] core [\b] *)
Definition mid_unit_re : re :=
  seqs ([Alt (chr ",") (Chr is_space); Star is_space] ++ unit_core ++ [Bnd]).

(** [r"(\d{5}(?:-\d{4})?)\b"] *)
Definition ZIP_RE : re :=
  seqs [Grp "1" (seqs [Chr is_digit; Chr is_digit; Chr is_digit;
                       Chr is_digit; Chr is_digit;
                       Opt (seqs [chr "-"; Chr is_digit; Chr is_digit;
                                  Chr is_digit; Chr is_digit])]);
        Bnd].

(** [r"[^\w\s]"], [r"[^\d]"] and [r"\d"] *)
Definition NON_WORD_SPACE_RE : re :=
  Chr (fun c => negb (is_word c || is_space c)).
Definition NON_DIGIT_RE : re := Chr (fun c => negb (is_digit c)).
Definition DIGIT_RE : re := Chr is_digit.

(** [r"\b" + re.escape(w) + r"\b"] *)
Definition whole_word (w : str) : re := seqs [Bnd; lit w; Bnd].

(** [MULTISPACE_RE.sub(" ", s).strip()] *)
Definition squeeze (s : str) : str := py_strip (re_sub MULTISPACE_RE [SP] s).

(** The dict the normaliser returns has these five keys. *)
Record AddressComponents : Type := MkAddr {
  address1 : str;
  address2 : str;
  city : str;
  state : str;
  zip : str
}.

(** Lookup in a table kept as an association list in insertion order. *)
Fixpoint table_get (t : list (str * str)) (k : str) : option str :=
  match t with
  | [] => None
  | (k', v) :: t' => if str_eqb k k' then Some v else table_get t' k
  end.

(* ------------------------------------------------------------------ *)
(** ** The normalisation helpers *)

(** [upper_and_cleanup] *)
Definition upper_and_cleanup (text : option str) : str :=
  match text with
  | None => []
  | Some text =>
      if negb (truthy text) then []
      else
        let t := py_upper (py_strip text) in
        let t := re_sub NON_ALNUM_RE [] t in
        let t := re_sub MULTISPACE_RE [SP] t in
        t
  end.

(** [standardize_zip] *)
Definition standardize_zip (zip_code : str) : str :=
  if negb (truthy zip_code) then []
  else
    let z := re_sub NON_DIGIT_RE [] zip_code in
    if length z =? 9 then upto 5 z ++ L "-" ++ from 5 z
    else if length z =? 5 then z
    else if truthy z then z else py_strip zip_code.

(** [normalize_po_box] (defined in the USPS copy only) *)
Definition normalize_po_box (address : str) : str :=
  if negb (truthy address) then address
  else
    let s := re_sub POBOX_RE (L "PO BOX") address in
    let s := py_replace (L ".") [] s in
    let s := squeeze s in
    s.

(** The designator of a unit match, canonicalised. *)
Definition canon_designator (m : rmatch) : str :=
  let designator :=
    py_replace (L "SUITE") (L "STE")
      (py_replace (L "APARTMENT") (L "APT")
         (py_upper (group m "designator"))) in
  if str_eqb designator (L "#") then L "APT" else designator.

(** [f"{designator} {value}"] *)
Definition unit_of (m : rmatch) : str :=
  canon_designator m ++ [SP] ++ py_upper (group m "value").

(** [extract_unit] *)
Definition extract_unit (address : str) : str * option str :=
  if negb (truthy address) then ([], None)
  else
    let a := address in
    let a := py_replace (L ",") (L " ") a in
    let a := squeeze a in
    if is_some (re_search POBOX_RE a) then (a, None)
    else
      match re_search trailing_unit_re a with
      | Some m =>
          let addr_wo := py_strip (upto (m_start m) a) in
          (addr_wo, Some (unit_of m))
      | None =>
          match re_search mid_unit_re a with
          | Some m2 =>
              let addr_wo :=
                py_strip (upto (m_start m2) a ++ from (m_end m2) a) in
              let addr_wo := squeeze addr_wo in
              (addr_wo, Some (unit_of m2))
          | None => (a, None)
          end
      end.

Section Engine.

(** The tables of one copy of the engine and the way that copy rewrites a
    PO Box street line. *)
Variable SUFFIX_MAP DIR_MAP STATE_MAP : list (str * str).
Variable po_box_line : str -> str.

(** [standardize_state] *)
Definition standardize_state (state : str) : str :=
  if negb (truthy state) then []
  else
    let s := py_upper (py_strip state) in
    if (length s =? 2) && py_isalpha s then s
    else
      let s_clean := re_sub NON_WORD_SPACE_RE [] s in
      let s_clean := squeeze s_clean in
      match table_get STATE_MAP s_clean with
      | Some code => code
      | None =>
          let s_alt := py_replace (L " STATE") [] s_clean in
          match table_get STATE_MAP s_alt with
          | Some code => code
          | None => s
          end
      end.

(** One pass of a table: [for long, short in table.items(): s = re.sub(...)] *)
Definition apply_table (t : list (str * str)) (s : str) : str :=
  fold_left (fun s e => re_sub (whole_word (fst e)) (snd e) s) t s.

(** [replace_suffixes_and_dirs] *)
Definition replace_suffixes_and_dirs (s : str) : str :=
  if negb (truthy s) then s
  else
    let s := apply_table DIR_MAP s in
    let s := apply_table SUFFIX_MAP s in
    squeeze s.

(** [standardize_address_components_local] *)
Definition standardize_address_components_local
    (address1 : str) (address2 city state zip_code : option str)
  : AddressComponents :=
  let a1 := upper_and_cleanup (Some address1) in
  let a2 := if truthy_opt address2 then upper_and_cleanup address2 else [] in
  let '(a1, a2) :=
    if is_some (re_search POBOX_RE a1) then (po_box_line a1, a2)
    else if negb (truthy a2) then
      let '(a1, extracted_unit) := extract_unit a1 in
      (a1, if truthy_opt extracted_unit then or_empty extracted_unit else a2)
    else (a1, a2) in
  let a2 :=
    if truthy a2 then
      squeeze (py_replace (L "SUITE") (L "STE")
                 (py_replace (L "APARTMENT") (L "APT") a2))
    else a2 in
  let a1 := replace_suffixes_and_dirs a1 in
  let a2 := if truthy a2 then replace_suffixes_and_dirs a2 else a2 in
  let st := standardize_state (or_empty state) in
  let z := standardize_zip (or_empty zip_code) in
  let c := upper_and_cleanup city in
  let a1 := squeeze a1 in
  let a2 := squeeze a2 in
  MkAddr a1 a2 c st z.

End Engine.

(* ------------------------------------------------------------------ *)
(** ** The three copies of the engine *)

(** [address_standardizer.py] *)
Module Plain.

(** [SUFFIX_MAP], lines 38-42. *)
Definition SUFFIX_MAP : list (str * str) := map (fun p => (L (fst p), L (snd p)))
  [("STREET", "ST"); ("AVENUE", "AVE"); ("ROAD", "RD"); ("DRIVE", "DR");
   ("BOULEVARD", "BLVD"); ("COURT", "CT"); ("LANE", "LN");
   ("TERRACE", "TER"); ("PLACE", "PL"); ("CIRCLE", "CIR")]%string.

(** [DIR_MAP], lines 43-45. *)
Definition DIR_MAP : list (str * str) := map (fun p => (L (fst p), L (snd p)))
  [("NORTH", "N"); ("SOUTH", "S"); ("EAST", "E"); ("WEST", "W");
   ("NORTHEAST", "NE"); ("NORTHWEST", "NW"); ("SOUTHEAST", "SE");
   ("SOUTHWEST", "SW"); ("N.", "N"); ("S.", "S"); ("E.", "E"); ("W.", "W")]%string.

(** [STATE_MAP], lines 46-59. *)
Definition STATE_MAP : list (str * str) := map (fun p => (L (fst p), L (snd p)))
  [("ALABAMA", "AL"); ("ALASKA", "AK"); ("ARIZONA", "AZ");
   ("ARKANSAS", "AR"); ("CALIFORNIA", "CA"); ("COLORADO", "CO");
   ("CONNECTICUT", "CT"); ("DELAWARE", "DE");
   ("DISTRICT OF COLUMBIA", "DC"); ("FLORIDA", "FL"); ("GEORGIA", "GA");
   ("HAWAII", "HI"); ("IDAHO", "ID"); ("ILLINOIS", "IL"); ("INDIANA", "IN");
   ("IOWA", "IA"); ("KANSAS", "KS"); ("KENTUCKY", "KY");
   ("LOUISIANA", "LA"); ("MAINE", "ME"); ("MARYLAND", "MD");
   ("MASSACHUSETTS", "MA"); ("MICHIGAN", "MI"); ("MINNESOTA", "MN");
   ("MISSISSIPPI", "MS"); ("MISSOURI", "MO"); ("MONTANA", "MT");
   ("NEBRASKA", "NE"); ("NEVADA", "NV"); ("NEW HAMPSHIRE", "NH");
   ("NEW JERSEY", "NJ"); ("NEW MEXICO", "NM"); ("NEW YORK", "NY");
   ("NORTH CAROLINA", "NC"); ("NORTH DAKOTA", "ND"); ("OHIO", "OH");
   ("OKLAHOMA", "OK"); ("OREGON", "OR"); ("PENNSYLVANIA", "PA");
   ("RHODE ISLAND", "RI"); ("SOUTH CAROLINA", "SC"); ("SOUTH DAKOTA", "SD");
   ("TENNESSEE", "TN"); ("TEXAS", "TX"); ("UTAH", "UT"); ("VERMONT", "VT");
   ("VIRGINIA", "VA"); ("WASHINGTON", "WA"); ("WEST VIRGINIA", "WV");
   ("WISCONSIN", "WI"); ("WYOMING", "WY"); ("PUERTO RICO", "PR");
   ("GUAM", "GU"); ("VIRGIN ISLANDS", "VI"); ("AMERICAN SAMOA", "AS")]%string.

(** The PO Box branch of this copy:
    [a1 = POBOX_RE.sub("PO BOX", a1).replace(".", "")] *)
Definition po_box_line (a1 : str) : str :=
  py_replace (L ".") [] (re_sub POBOX_RE (L "PO BOX") a1).

Definition standardize_state : str -> str :=
  standardize_state STATE_MAP.

Definition replace_suffixes_and_dirs : str -> str :=
  replace_suffixes_and_dirs SUFFIX_MAP DIR_MAP.

Definition standardize_address_components_local
  : str -> option str -> option str -> option str -> option str ->
    AddressComponents :=
  standardize_address_components_local SUFFIX_MAP DIR_MAP STATE_MAP
    po_box_line.

End Plain.

(** [address_standardizer_with_usps.py], lines 1-541 *)
Module Usps.

(** [SUFFIX_MAP], lines 56-83, in insertion order. *)
Definition SUFFIX_MAP : list (str * str) := map (fun p => (L (fst p), L (snd p)))
  [("ALLEE", "ALY"); ("ALLEY", "ALY"); ("ALLY", "ALY"); ("ANEX", "ANX");
   ("ANNEX", "ANX"); ("ARCADE", "ARC"); ("AVENUE", "AVE"); ("AVEN", "AVE");
   ("AVN", "AVE"); ("BAYOU", "BYU"); ("BEACH", "BCH"); ("BEND", "BND");
   ("BLUFF", "BLF"); ("BOULEVARD", "BLVD"); ("BOUL", "BLVD");
   ("BRANCH", "BR"); ("BRIDGE", "BRG"); ("BROOK", "BRK"); ("BURG", "BG");
   ("BYPASS", "BYP"); ("CAMP", "CP"); ("CANYON", "CYN"); ("CAPE", "CPE");
   ("CAUSEWAY", "CSWY"); ("CENTER", "CTR"); ("CIRCLE", "CIR");
   ("CLIFF", "CLF"); ("CLUB", "CLB"); ("COMMON", "CMN"); ("CORNER", "COR");
   ("COURSE", "CRSE"); ("COURT", "CT"); ("COVE", "CV"); ("CREEK", "CRK");
   ("CRESCENT", "CRES"); ("CROSSING", "XING"); ("DALE", "DL");
   ("DAM", "DM"); ("DIVIDE", "DV"); ("DRIVE", "DR"); ("ESTATE", "EST");
   ("EXPRESSWAY", "EXPY"); ("EXTENSION", "EXT"); ("FALLS", "FLS");
   ("FERRY", "FRY"); ("FIELD", "FLD"); ("FLAT", "FLT"); ("FORD", "FRD");
   ("FOREST", "FRST"); ("FORGE", "FGR"); ("FORWARD", "FWD");
   ("GARDEN", "GDN"); ("GATEWAY", "GTWY"); ("GLEN", "GLN");
   ("GREEN", "GRN"); ("GROVE", "GRV"); ("HARBOR", "HBR"); ("HAVEN", "HVN");
   ("HEIGHTS", "HTS"); ("HIGHWAY", "HWY"); ("HILL", "HL");
   ("HOLLOW", "HOLW"); ("INLET", "INLT"); ("ISLAND", "IS");
   ("ISLE", "ISLE"); ("JUNCTION", "JCT"); ("KEY", "KY"); ("KNOLL", "KNL");
   ("LAKE", "LK"); ("LANDING", "LNDG"); ("LANE", "LN"); ("LIGHT", "LGT");
   ("LOAF", "LF"); ("LOCK", "LCK"); ("LODGE", "LDG"); ("LOOP", "LOOP");
   ("MALL", "MALL"); ("MANOR", "MNR"); ("MEADOW", "MDW"); ("MILL", "ML");
   ("MOUNT", "MT"); ("MOUNTAIN", "MTN"); ("NORTH", "N"); ("PARK", "PARK");
   ("PARKWAY", "PKWY"); ("PASS", "PASS"); ("PASSAGE", "PSGE");
   ("PATH", "PATH"); ("PIKE", "PIKE"); ("PINE", "PNE"); ("PLACE", "PL");
   ("PLAZA", "PLZ"); ("POINT", "PT"); ("PORT", "PRT"); ("PRAIRIE", "PR");
   ("RADIAL", "RADL"); ("RANCH", "RNCH"); ("RAPIDS", "RPD");
   ("REST", "RST"); ("RIDGE", "RDG"); ("RIVER", "RIV"); ("ROAD", "RD");
   ("ROW", "ROW"); ("RUN", "RUN"); ("SHORE", "SHR"); ("SPRING", "SPG");
   ("SQUARE", "SQ"); ("STATION", "STA"); ("STRAVENUE", "STRA");
   ("STREAM", "STRM"); ("STREET", "ST"); ("SUMMIT", "SMT");
   ("TERRACE", "TER"); ("TRACE", "TRCE"); ("TRAIL", "TRL");
   ("TUNNEL", "TUNL"); ("TURNPIKE", "TPKE"); ("UNION", "UN");
   ("VALLEY", "VLY"); ("VIEW", "VW"); ("VILLAGE", "VLG"); ("VILLE", "VL");
   ("WALK", "WALK"); ("WALL", "WALL"); ("WAY", "WAY"); ("WELL", "WL")]%string.

(** [DIR_MAP], lines 85-89. *)
Definition DIR_MAP : list (str * str) := map (fun p => (L (fst p), L (snd p)))
  [("NORTH", "N"); ("SOUTH", "S"); ("EAST", "E"); ("WEST", "W");
   ("NORTHEAST", "NE"); ("NORTHWEST", "NW"); ("SOUTHEAST", "SE");
   ("SOUTHWEST", "SW"); ("N.", "N"); ("S.", "S"); ("E.", "E"); ("W.", "W")]%string.

(** [STATE_MAP], lines 91-104. *)
Definition STATE_MAP : list (str * str) := map (fun p => (L (fst p), L (snd p)))
  [("ALABAMA", "AL"); ("ALASKA", "AK"); ("ARIZONA", "AZ");
   ("ARKANSAS", "AR"); ("CALIFORNIA", "CA"); ("COLORADO", "CO");
   ("CONNECTICUT", "CT"); ("DELAWARE", "DE");
   ("DISTRICT OF COLUMBIA", "DC"); ("FLORIDA", "FL"); ("GEORGIA", "GA");
   ("HAWAII", "HI"); ("IDAHO", "ID"); ("ILLINOIS", "IL"); ("INDIANA", "IN");
   ("IOWA", "IA"); ("KANSAS", "KS"); ("KENTUCKY", "KY");
   ("LOUISIANA", "LA"); ("MAINE", "ME"); ("MARYLAND", "MD");
   ("MASSACHUSETTS", "MA"); ("MICHIGAN", "MI"); ("MINNESOTA", "MN");
   ("MISSISSIPPI", "MS"); ("MISSOURI", "MO"); ("MONTANA", "MT");
   ("NEBRASKA", "NE"); ("NEVADA", "NV"); ("NEW HAMPSHIRE", "NH");
   ("NEW JERSEY", "NJ"); ("NEW MEXICO", "NM"); ("NEW YORK", "NY");
   ("NORTH CAROLINA", "NC"); ("NORTH DAKOTA", "ND"); ("OHIO", "OH");
   ("OKLAHOMA", "OK"); ("OREGON", "OR"); ("PENNSYLVANIA", "PA");
   ("RHODE ISLAND", "RI"); ("SOUTH CAROLINA", "SC"); ("SOUTH DAKOTA", "SD");
   ("TENNESSEE", "TN"); ("TEXAS", "TX"); ("UTAH", "UT"); ("VERMONT", "VT");
   ("VIRGINIA", "VA"); ("WASHINGTON", "WA"); ("WEST VIRGINIA", "WV");
   ("WISCONSIN", "WI"); ("WYOMING", "WY"); ("PUERTO RICO", "PR");
   ("GUAM", "GU"); ("VIRGIN ISLANDS", "VI"); ("AMERICAN SAMOA", "AS")]%string.

(** The PO Box branch of this copy: [a1 = normalize_po_box(a1)] *)
Definition po_box_line (a1 : str) : str := normalize_po_box a1.

Definition standardize_state : str -> str :=
  standardize_state STATE_MAP.

Definition replace_suffixes_and_dirs : str -> str :=
  replace_suffixes_and_dirs SUFFIX_MAP DIR_MAP.

Definition standardize_address_components_local
  : str -> option str -> option str -> option str -> option str ->
    AddressComponents :=
  standardize_address_components_local SUFFIX_MAP DIR_MAP STATE_MAP
    po_box_line.

End Usps.

(** The column parser appended to [address_standardizer_with_usps.py],
    lines 543-869; [parse_full_address] resolves its helpers here. *)
Module Parser.

(** [DIR_MAP], lines 578-580. *)
Definition DIR_MAP : list (str * str) := map (fun p => (L (fst p), L (snd p)))
  [("NORTH", "N"); ("SOUTH", "S"); ("EAST", "E"); ("WEST", "W");
   ("NORTHEAST", "NE"); ("NORTHWEST", "NW"); ("SOUTHEAST", "SE");
   ("SOUTHWEST", "SW"); ("N.", "N"); ("S.", "S"); ("E.", "E"); ("W.", "W")]%string.

(** [SUFFIX_MAP], lines 582-585. *)
Definition SUFFIX_MAP : list (str * str) := map (fun p => (L (fst p), L (snd p)))
  [("STREET", "ST"); ("AVENUE", "AVE"); ("ROAD", "RD"); ("DRIVE", "DR");
   ("BOULEVARD", "BLVD"); ("COURT", "CT"); ("LANE", "LN");
   ("TERRACE", "TER"); ("PLACE", "PL"); ("CIRCLE", "CIR")]%string.

(** [STATE_MAP], lines 587-591: ten states only. *)
Definition STATE_MAP : list (str * str) := map (fun p => (L (fst p), L (snd p)))
  [("ALABAMA", "AL"); ("ALASKA", "AK"); ("ARIZONA", "AZ");
   ("ARKANSAS", "AR"); ("CALIFORNIA", "CA"); ("NEW YORK", "NY");
   ("TEXAS", "TX"); ("FLORIDA", "FL"); ("ILLINOIS", "IL");
   ("WASHINGTON", "WA")]%string.

(** The PO Box branch of this copy:
    [a1 = POBOX_RE.sub("PO BOX", a1).replace(".", "")] *)
Definition po_box_line (a1 : str) : str :=
  py_replace (L ".") [] (re_sub POBOX_RE (L "PO BOX") a1).

Definition standardize_state : str -> str :=
  standardize_state STATE_MAP.

Definition standardize_address_components_local
  : str -> option str -> option str -> option str -> option str ->
    AddressComponents :=
  standardize_address_components_local SUFFIX_MAP DIR_MAP STATE_MAP
    po_box_line.

(** The five locals [street, unit, city, state, zipc] of
    [parse_full_address]. *)
Definition parts5 : Type := (str * str * str * str * str)%type.

Definition empty5 : parts5 := ([], [], [], [], []).

(** [m_zip = re.search(ZIP, t)]: the ZIP found and the text before it,
    stripped; without a match, [dflt] and an empty ZIP. *)
Definition cut_zip (t dflt : str) : str * str :=
  match re_search ZIP_RE t with
  | Some m_zip => (group m_zip "1", py_strip (upto (m_start m_zip) t))
  | None => ([], dflt)
  end.

(** [for i, t in enumerate(tokens): if re.search(r"\d", t): idx_num = i; break] *)
Fixpoint first_numeric (tokens : list str) (i : nat) : option nat :=
  match tokens with
  | [] => None
  | t :: tokens' =>
      if is_some (re_search DIGIT_RE t) then Some i
      else first_numeric tokens' (S i)
  end.

(** [s] and [parts] as computed before the [try]. *)
Definition flatten_breaks (full : str) : str :=
  let s := py_strip full in
  let s := py_replace [CR] (L " ") (py_replace [NL] (L " ") s) in
  squeeze s.

Definition segments (s : str) : list str :=
  map py_strip (filter (fun p => truthy (py_strip p)) (py_split_comma s)).

(** The body of the [try] block. *)
Definition parse_phase (s : str) (parts : list str) : res parts5 :=
  if 3 <=? length parts then
    let street_part := py_join (L ", ") (drop_last 2 parts) in
    city_part <- index_back parts 2 ;;
    state_zip_part <- index_back parts 1 ;;
    let '(zipc, state_part) :=
      cut_zip state_zip_part (py_strip state_zip_part) in
    let '(street_candidate, unit_candidate) := extract_unit street_part in
    Ok (street_candidate, or_empty unit_candidate, city_part, state_part,
        zipc)
  else if length parts =? 2 then
    street_part <- index_at parts 0 ;;
    right <- index_at parts 1 ;;
    let '(zipc, without_zip) := cut_zip right right in
    let tokens := py_split without_zip in
    city_state <-
      (if truthy_list tokens then
         state_candidate <- index_back tokens 1 ;;
         let city_candidate :=
           py_strip (py_join (L " ") (drop_last 1 tokens)) in
         Ok (city_candidate, state_candidate)
       else Ok (without_zip, [])) ;;
    let '(street_candidate, unit_candidate) := extract_unit street_part in
    Ok (street_candidate, or_empty unit_candidate, fst city_state,
        snd city_state, zipc)
  else
    let '(zipc, before_zip) := cut_zip s s in
    let tokens := py_split before_zip in
    match first_numeric tokens 0 with
    | None => Ok (before_zip, [], [], [], zipc)
    | Some _ =>
        if 3 <=? length tokens then
          last <- index_back tokens 1 ;;
          if (length last =? 2) || py_isalpha last then
            let street :=
              py_join (L " ") (upto (length tokens - 2) tokens) in
            Ok (street, [], [], last, zipc)
          else Ok (before_zip, [], [], [], zipc)
        else Ok (before_zip, [], [], [], zipc)
    end.

(** The two statements after the [try]: the locals go through the
    normaliser and come back as a 5-tuple. *)
Definition normalize5 (p : parts5) : parts5 :=
  let '(street, unit, city0, state0, zipc) := p in
  let normalized :=
    standardize_address_components_local street (Some unit) (Some city0)
      (Some state0) (Some zipc) in
  (address1 normalized, address2 normalized, city normalized,
   state normalized, zip normalized).

(** [parse_full_address]: a raise inside the [try] is caught and turned
    into five empty strings; the result type keeps room for an exception
    that would escape. *)
Definition parse_full_address (full : option str) : res parts5 :=
  if negb (truthy_opt full) then Ok empty5
  else
    let s := flatten_breaks (or_empty full) in
    let parts := segments s in
    match parse_phase s parts with
    | Raise _ => Ok empty5
    | Ok p => Ok (normalize5 p)
    end.

End Parser.

(* ------------------------------------------------------------------ *)
(** ** Vocabulary of the properties *)

(** White-space runs folded to one blank, written without the pattern
    engine; [in_run] tells that the previous character was blank. *)
Fixpoint collapse_run (in_run : bool) (s : str) : str :=
  match s with
  | [] => []
  | c :: s' =>
      if is_space c
      then if in_run then collapse_run true s' else SP :: collapse_run true s'
      else c :: collapse_run false s'
  end.

Definition collapse (s : str) : str := collapse_run false s.

(** Length of the leading run of characters of a class, and what is left
    after that run. *)
Fixpoint run_len (p : ascii -> bool) (s : str) : nat :=
  match s with
  | c :: s' => if p c then S (run_len p s') else 0
  | [] => 0
  end.

Fixpoint drop_run (p : ascii -> bool) (s : str) : str :=
  match s with
  | c :: s' => if p c then drop_run p s' else s
  | [] => []
  end.

(** Every blank of the text is the space character and is followed by a
    non-blank or by the end. *)
Fixpoint single_spaced (s : str) : bool :=
  match s with
  | [] => true
  | c :: s' =>
      (if is_space c
       then chr_eqb c SP
            && match s' with [] => true | d :: _ => negb (is_space d) end
       else true)
      && single_spaced s'
  end.

(** A text that does not start with a blank. *)
Definition headed (s : str) : Prop :=
  match s with [] => True | c :: _ => is_space c = false end.

(** The characters the Lexical Cleaner keeps, as the code has them:
    [\w] (alphanumeric or underscore), white space, [#] and [-]. *)
Definition kept_char (c : ascii) : bool :=
  is_alnum c || (code c =? 95) || is_space c
  || chr_eqb c "#"%char || chr_eqb c "-"%char.

(** The characters the specification says are kept: alphanumeric, white
    space, [#] and [-]. *)
Definition spec_kept_char (c : ascii) : bool :=
  is_alnum c || is_space c || chr_eqb c "#"%char || chr_eqb c "-"%char.

(** The Lexical Cleaner as section 4.1 words it. *)
Definition spec_clean (text : option str) : str :=
  match text with
  | None => []
  | Some t => collapse (filter spec_kept_char (py_upper (py_strip t)))
  end.

(** Upper-cased, punctuation-stripped text: capitals, digits, underscore,
    the blank, [#] and [-]. *)
Definition clean_char (c : ascii) : bool :=
  is_upper c || is_digit c || (code c =? 95) || chr_eqb c SP
  || chr_eqb c "#"%char || chr_eqb c "-"%char.

Definition clean_text (s : str) : bool := forallb clean_char s.

Definition two_letter_code (s : str) : bool :=
  (length s =? 2) && forallb is_upper s.

Definition digits_only (s : str) : bool := forallb is_digit s.

Definition five_digits (s : str) : bool := (length s =? 5) && digits_only s.

(** [DDDDD-DDDD] *)
Definition zip_plus4 (s : str) : bool :=
  (length s =? 10) && digits_only (upto 5 s)
  && str_eqb (upto 1 (from 5 s)) (L "-") && digits_only (from 6 s).

Definition is_empty (s : str) : bool := negb (truthy s).

(** The invariant section 3 gives for [AddressComponents]. *)
Definition AddressComponents_invariant (r : AddressComponents) : bool :=
  clean_text (address1 r) && clean_text (address2 r) && clean_text (city r)
  && clean_text (state r) && clean_text (zip r)
  && (is_empty (state r) || two_letter_code (state r))
  && (is_empty (zip r) || five_digits (zip r) || zip_plus4 (zip r)).

(** Feeding a result back in as the five arguments. *)
Definition renormalize
    (f : str -> option str -> option str -> option str -> option str ->
         AddressComponents) (r : AddressComponents) : AddressComponents :=
  f (address1 r) (Some (address2 r)) (Some (city r)) (Some (state r))
    (Some (zip r)).

(** The cleaned form of a state input: upper-cased, punctuation stripped,
    white space collapsed ([s_clean] in [standardize_state]). *)
Definition state_cleaned (state : str) : str :=
  squeeze (re_sub NON_WORD_SPACE_RE [] (py_upper (py_strip state))).

(** The designators [extract_unit] can return. *)
Definition RETURNED_DESIGNATORS : list str :=
  map L ["APT"; "UNIT"; "STE"; "FL"; "FLOOR"; "RM"; "ROOM"]%string.

(** The characters of a returned unit value: [A-Z], [0-9] and [-]. *)
Definition unit_value_upper (c : ascii) : bool :=
  is_upper c || is_digit c || chr_eqb c "-"%char.

(** The character before the position after the word [w] has been read. *)
Fixpoint last_prev (prev : option ascii) (w : str) : option ascii :=
  match w with
  | [] => prev
  | c :: w' => last_prev (Some c) w'
  end.

(** A table key that is not empty and holds no blank. *)
Definition blank_free (w : str) : bool :=
  truthy w && forallb (fun c => negb (is_space c)) w.

Definition keys_blank_free (t : list (str * str)) : bool :=
  forallb (fun e => blank_free (fst e)) t.

(** The two table passes of [replace_suffixes_and_dirs]. *)
Definition passes (SUFFIX_MAP DIR_MAP : list (str * str)) (s : str) : str :=
  apply_table SUFFIX_MAP (apply_table DIR_MAP s).

(** The least number of characters a match of the pattern consumes. *)
Fixpoint min_len (r : re) : nat :=
  match r with
  | Eps | Bnd | Eos | Star _ => 0
  | Chr _ => 1
  | Seq a b => min_len a + min_len b
  | Alt a b => Nat.min (min_len a) (min_len b)
  | Grp _ a => min_len a
  end.

(** What a successful match of a pattern says about the subject: [s'] is
    what is left of [s] after the match and [g'] extends [g] with the groups
    the match captured.  Zero-width assertions are not recorded. *)
Fixpoint den (r : re) (s s' : str) (g g' : caps) : Prop :=
  match r with
  | Eps | Bnd | Eos => s' = s /\ g' = g
  | Chr p => exists c, s = c :: s' /\ p c = true /\ g' = g
  | Seq a b => exists s1 g1, den a s s1 g g1 /\ den b s1 s' g1 g'
  | Alt a b => den a s s' g g' \/ den b s s' g g'
  | Star p => exists t, s = t ++ s' /\ forallb p t = true /\ g' = g
  | Grp n a =>
      exists g1, den a s s' g g1
                 /\ g' = (n, firstn (length s - length s') s) :: g1
  end.

(* ------------------------------------------------------------------ *)
(** ** The USPS request (the same text in both files that have it) *)

Definition DQ : ascii := ascii_of_nat 34.

(** [esc], the helper inside [build_usps_verify_xml] *)
Definition esc (s : option str) : str :=
  match s with
  | None => []
  | Some s =>
      py_replace (L "'") (L "&apos;")
        (py_replace [DQ] (L "&quot;")
           (py_replace (L ">") (L "&gt;")
              (py_replace (L "<") (L "&lt;")
                 (py_replace (L "&") (L "&amp;") s))))
  end.

(** [build_usps_verify_xml] *)
Definition build_usps_verify_xml
    (userid street secondary city state zip5 zip4 : str) : str :=
  L "<AddressValidateRequest USERID=" ++ [DQ] ++ esc (Some userid) ++ [DQ]
    ++ L ">"
  ++ L "<Revision>1</Revision>"
  ++ L "<Address ID=" ++ [DQ] ++ L "0" ++ [DQ] ++ L ">"
  ++ L "<Address1>" ++ esc (Some secondary) ++ L "</Address1>"
  ++ L "<Address2>" ++ esc (Some street) ++ L "</Address2>"
  ++ L "<City>" ++ esc (Some city) ++ L "</City>"
  ++ L "<State>" ++ esc (Some state) ++ L "</State>"
  ++ L "<Zip5>" ++ esc (Some zip5) ++ L "</Zip5>"
  ++ L "<Zip4>" ++ esc (Some zip4) ++ L "</Zip4>"
  ++ L "</Address>"
  ++ L "</AddressValidateRequest>".

(** The first three statements of [call_usps_verify]: the digits of the
    ZIP, cut into [zip5] and [zip4]. *)
Definition usps_zip_parts (zip_code : option str) : str * str :=
  let zip_clean := re_sub NON_DIGIT_RE [] (or_empty zip_code) in
  let zip5 := if 5 <=? length zip_clean then upto 5 zip_clean else [] in
  let zip4 :=
    if 9 <=? length zip_clean then upto 4 (from 5 zip_clean) else [] in
  (zip5, zip4).

(** The request [call_usps_verify] builds before it goes to the network. *)
Definition usps_request
    (userid : str) (street secondary city state zip_code : option str) : str :=
  let '(zip5, zip4) := usps_zip_parts zip_code in
  build_usps_verify_xml userid (or_empty street) (or_empty secondary)
    (or_empty city) (or_empty state) zip5 zip4.

(** [combined_zip] at the end of [call_usps_verify], from the stripped
    [Zip5] and [Zip4] of the reply. *)
Definition usps_combined_zip (usps_zip5 usps_zip4 : str) : str :=
  if truthy usps_zip5 && truthy usps_zip4
  then usps_zip5 ++ L "-" ++ usps_zip4
  else usps_zip5.

(* ------------------------------------------------------------------ *)
(** ** Output column names of [process_csv] in [address_standardizer.py] *)

(** [x in l] for a list of strings *)
Definition mem (x : str) (l : list str) : bool := existsb (str_eqb x) l.

(** [f"{n}"] for a non-negative [int] *)
Definition decimal (n : nat) : str :=
  list_ascii_of_string (NilEmpty.string_of_uint (Nat.to_uint n)).

(** [f"{base}_{suffix}"] *)
Definition numbered (base : str) (suffix : nat) : str :=
  base ++ L "_" ++ decimal suffix.

(** The [while std_name in input_fieldnames] loop; [fuel] bounds the number
    of times its body runs. *)
Fixpoint free_name (fuel : nat) (base std_name : str) (suffix : nat)
    (input_fieldnames : list str) : option str :=
  if mem std_name input_fieldnames then
    match fuel with
    | O => None
    | S fuel' =>
        free_name fuel' base (numbered base suffix) (S suffix)
          input_fieldnames
    end
  else Some std_name.

(** One turn of [for c in columns]: the name appended to [std_fields].
    The loop body runs at most once per input column. *)
Definition std_field (c : str) (input_fieldnames : list str) : option str :=
  let std_name := L "std_" ++ c in
  free_name (length input_fieldnames) std_name std_name 1 input_fieldnames.

(* ------------------------------------------------------------------ *)
(** ** More vocabulary *)

(** A table consulted as a dictionary: the value, or the word itself. *)
Definition lookup_or_self (t : list (str * str)) (w : str) : str :=
  match table_get t w with Some v => v | None => w end.

(** A non-empty run of word characters. *)
Definition word_token (w : str) : bool := truthy w && forallb is_word w.

(** One pass of a table over a single word. *)
Definition chain (t : list (str * str)) (w : str) : str :=
  fold_left (fun s e => if str_eqb s (fst e) then snd e else s) t w.

(** No value of the table is rewritten by a later entry, and every value is
    a word. *)
Fixpoint settled (t : list (str * str)) : bool :=
  match t with
  | [] => true
  | e :: t' =>
      str_eqb (chain t' (snd e)) (snd e) && word_token (snd e) && settled t'
  end.

Definition no_char (c : ascii) (s : str) : bool :=
  forallb (fun x => negb (chr_eqb c x)) s.

(** The entries of a table whose key is a word. *)
Definition word_entries (t : list (str * str)) : list (str * str) :=
  filter (fun e => word_token (fst e)) t.

(** A text that is trimmed and single-spaced. *)
Definition tidy (s : str) : Prop :=
  py_strip s = s /\ single_spaced s = true.

Definition plain_char (c : ascii) : bool :=
  negb (is_digit c) && negb (chr_eqb c ","%char).

(** What [esc] writes for one character. *)
Definition esc_char (c : ascii) : str :=
  if chr_eqb c "&"%char then L "&amp;"
  else if chr_eqb c "<"%char then L "&lt;"
  else if chr_eqb c ">"%char then L "&gt;"
  else if chr_eqb c DQ then L "&quot;"
  else if chr_eqb c "'"%char then L "&apos;"
  else [c].

(** Reading the five entities back; [skip] counts the characters of an
    entity that are still to be dropped. *)
Fixpoint unesc_from (s : str) (skip : nat) : str :=
  match s with
  | [] => []
  | c :: s' =>
      match skip with
      | S n => unesc_from s' n
      | O =>
          if starts_with (L "&amp;") s then "&"%char :: unesc_from s' 4
          else if starts_with (L "&lt;") s then "<"%char :: unesc_from s' 3
          else if starts_with (L "&gt;") s then ">"%char :: unesc_from s' 3
          else if starts_with (L "&quot;") s then DQ :: unesc_from s' 5
          else if starts_with (L "&apos;") s then "'"%char :: unesc_from s' 5
          else c :: unesc_from s' 0
      end
  end.

(** Number of occurrences of a character. *)
Definition count_char (c : ascii) (s : str) : nat :=
  length (filter (chr_eqb c) s).

(** A character that delimits neither markup nor an attribute value. *)
Definition markup_free (c : ascii) : bool :=
  negb (chr_eqb c "<"%char || chr_eqb c ">"%char || chr_eqb c DQ
        || chr_eqb c "'"%char).

(** A text that is empty or starts with a non-word character. *)
Definition word_end (s : str) : bool :=
  match s with [] => true | c :: _ => negb (is_word c) end.

(** A key that is a word, or that holds a character which is neither a word
    character nor the blank (as the dotted directionals do). *)
Definition key_ok (k : str) : bool :=
  word_token k
  || existsb (fun x => negb (is_word x) && negb (chr_eqb x SP)) k.

Definition table_ok (t : list (str * str)) : bool :=
  forallb (fun e => key_ok (fst e) && word_token (snd e)) t.

(** The rewriting of one word by one table entry. *)
Definition entry_word (e : str * str) (w : str) : str :=
  if str_eqb w (fst e) then snd e else w.

(** Every key of the table is a word or holds a period. *)
Definition dotted_or_word (t : list (str * str)) : bool :=
  forallb (fun e => word_token (fst e) || existsb (chr_eqb "."%char) (fst e))
    t.

(** [columns] when none are given: process_csv, line 270; main, line 364. *)
Definition default_columns : list str :=
  [L "address1"; L "address2"; L "city"; L "state"; L "zip"].

(** [for c in columns: ... std_fields.append(std_name)]: every column is
    named against the input columns only, never against the names already
    appended. *)
Fixpoint std_fields (columns input_fieldnames : list str)
  : option (list str) :=
  match columns with
  | [] => Some []
  | c :: cs =>
      match std_field c input_fieldnames with
      | None => None
      | Some n =>
          match std_fields cs input_fieldnames with
          | None => None
          | Some ns => Some (n :: ns)
          end
      end
  end.

Definition no_period (c : ascii) : bool := negb (chr_eqb "."%char c).

(** ** ASCII text *)

(** The characters of this model are ASCII: its character classes, its
    upper-casing and its case-insensitive matching are Python's on the code
    points below 128.  On other text Python's [\w], [\s], [str.upper] and
    [re.IGNORECASE] follow Unicode, so a statement about which characters
    are kept, or about the letters of a result, is made for ASCII text. *)
Definition is_ascii7 (c : ascii) : bool := code c <? 128.

Definition ascii_text (s : str) : bool := forallb is_ascii7 s.

Definition ascii_opt (s : option str) : bool :=
  match s with
  | Some t => ascii_text t
  | None => true
  end.


(* ------------------------------------------------------------------ *)
(** * Properties *)

(** ** Characters *)

Ltac each_char c :=
  destruct c as [[|] [|] [|] [|] [|] [|] [|] [|]]; vm_compute;
  try reflexivity; try discriminate; auto.

Lemma to_upper_idem : forall c, to_upper (to_upper c) = to_upper c.
Proof. intro c; each_char c. Qed.

Lemma is_space_to_upper : forall c, is_space (to_upper c) = is_space c.
Proof. intro c; each_char c. Qed.

Lemma is_digit_to_upper : forall c, is_digit (to_upper c) = is_digit c.
Proof. intro c; each_char c. Qed.

Lemma alpha_to_upper :
  forall c, is_alpha (to_upper c) = true -> is_upper (to_upper c) = true.
Proof. intro c; each_char c. Qed.

Lemma kept_upper_clean :
  forall c, kept_char (to_upper c) = true -> is_space (to_upper c) = false ->
            clean_char (to_upper c) = true.
Proof. intro c; each_char c. Qed.

Lemma clean_to_upper : forall c, clean_char c = true -> to_upper c = c.
Proof. intro c; each_char c. Qed.

Lemma clean_kept : forall c, clean_char c = true -> kept_char c = true.
Proof. intro c; each_char c. Qed.

Lemma clean_space : forall c, clean_char c = true -> is_space c = true -> c = SP.
Proof. intro c; each_char c. Qed.

Lemma upper_to_upper : forall c, is_upper c = true -> to_upper c = c.
Proof. intro c; each_char c. Qed.

Lemma upper_not_space : forall c, is_upper c = true -> is_space c = false.
Proof. intro c; each_char c. Qed.

Lemma upper_clean : forall c, is_upper c = true -> clean_char c = true.
Proof. intro c; each_char c. Qed.

Lemma digit_clean : forall c, is_digit c = true -> clean_char c = true.
Proof. intro c; each_char c. Qed.

Lemma digit_not_space : forall c, is_digit c = true -> is_space c = false.
Proof. intro c; each_char c. Qed.

Lemma value_char_upper :
  forall c, unit_value_char c = true -> unit_value_upper (to_upper c) = true.
Proof. intro c; each_char c. Qed.

Lemma value_upper_clean :
  forall c, unit_value_upper c = true -> clean_char c = true.
Proof. intro c; each_char c. Qed.

Lemma clean_char_to_upper :
  forall c, clean_char c = true -> clean_char (to_upper c) = true.
Proof. intro c; each_char c. Qed.

Lemma chr_eqb_eq : forall a b, chr_eqb a b = true -> a = b.
Proof. intros a b H; apply Ascii.eqb_eq; exact H. Qed.

Lemma str_eqb_eq : forall a b, str_eqb a b = true <-> a = b.
Proof.
  induction a as [|x a IH]; destruct b as [|y b]; simpl; split; intro H;
    try reflexivity; try discriminate.
  - apply andb_true_iff in H as [H1 H2].
    apply chr_eqb_eq in H1; apply IH in H2; congruence.
  - injection H as -> ->. apply andb_true_iff; split.
    + apply Ascii.eqb_refl.
    + apply IH; reflexivity.
Qed.

(** ** Texts over a class of characters *)

Section Over.

Variable P : ascii -> bool.

Lemma over_app : forall a b,
  forallb P (a ++ b) = true <-> forallb P a = true /\ forallb P b = true.
Proof. intros a b. rewrite forallb_app. apply andb_true_iff. Qed.

Lemma over_cons : forall c s,
  forallb P (c :: s) = true <-> P c = true /\ forallb P s = true.
Proof. intros c s. simpl. apply andb_true_iff. Qed.

Lemma over_firstn : forall n s,
  forallb P s = true -> forallb P (firstn n s) = true.
Proof.
  induction n as [|n IH]; intros [|c s] H; simpl; auto.
  apply over_cons in H as [Hc Hs]. rewrite Hc. simpl. auto.
Qed.

Lemma over_skipn : forall n s,
  forallb P s = true -> forallb P (skipn n s) = true.
Proof.
  induction n as [|n IH]; intros [|c s] H; simpl; auto.
  apply over_cons in H as [Hc Hs]. auto.
Qed.

Lemma over_lstrip : forall s,
  forallb P s = true -> forallb P (lstrip s) = true.
Proof.
  induction s as [|c s IH]; intro H; simpl; auto.
  destruct (is_space c); auto.
  apply over_cons in H as [_ Hs]. auto.
Qed.

Lemma over_rstrip : forall s,
  forallb P s = true -> forallb P (rstrip s) = true.
Proof.
  induction s as [|c s IH]; intro H; simpl; auto.
  apply over_cons in H as [Hc Hs]. specialize (IH Hs).
  destruct (rstrip s) as [|x t].
  - destruct (is_space c); simpl; auto. rewrite Hc; reflexivity.
  - apply over_cons; auto.
Qed.

Lemma over_strip : forall s,
  forallb P s = true -> forallb P (py_strip s) = true.
Proof. intros s H. unfold py_strip. apply over_rstrip, over_lstrip, H. Qed.

Lemma over_sub_from : forall r repl s prev skip,
  forallb P repl = true -> forallb P s = true ->
  forallb P (sub_from r repl prev s skip) = true.
Proof.
  intros r repl s. induction s as [|c s IH]; intros prev skip Hr Hs; simpl; auto.
  apply over_cons in Hs as [Hc Hs].
  destruct skip as [|n]; auto.
  destruct (match_here r prev (c :: s)) as [[[|n] g]|].
  - apply over_cons; auto.
  - apply over_app; auto.
  - apply over_cons; auto.
Qed.

Lemma over_re_sub : forall r repl s,
  forallb P repl = true -> forallb P s = true ->
  forallb P (re_sub r repl s) = true.
Proof. intros. apply over_sub_from; assumption. Qed.

Lemma over_replace_from : forall old new s skip,
  forallb P new = true -> forallb P s = true ->
  forallb P (replace_from old new s skip) = true.
Proof.
  intros old new s. induction s as [|c s IH]; intros skip Hn Hs; simpl; auto.
  apply over_cons in Hs as [Hc Hs].
  destruct skip as [|n]; auto.
  destruct (starts_with old (c :: s)).
  - apply over_app; auto.
  - apply over_cons; auto.
Qed.

Lemma over_replace : forall old new s,
  forallb P new = true -> forallb P s = true ->
  forallb P (py_replace old new s) = true.
Proof. intros. apply over_replace_from; assumption. Qed.

Lemma over_squeeze : forall s,
  P SP = true -> forallb P s = true -> forallb P (squeeze s) = true.
Proof.
  intros s Hsp Hs. unfold squeeze. apply over_strip, over_re_sub; auto.
  simpl. rewrite Hsp. reflexivity.
Qed.

Lemma over_apply_table : forall t s,
  forallb (fun e => forallb P (snd e)) t = true ->
  forallb P s = true -> forallb P (apply_table t s) = true.
Proof.
  unfold apply_table. induction t as [|e t IH]; intros s Ht Hs; simpl; auto.
  simpl in Ht. apply andb_true_iff in Ht as [He Ht].
  apply IH; auto. apply over_re_sub; auto.
Qed.

End Over.

Lemma over_upper : forall (P Q : ascii -> bool) s,
  (forall c, P c = true -> Q (to_upper c) = true) ->
  forallb P s = true -> forallb Q (py_upper s) = true.
Proof.
  intros P Q s HPQ. induction s as [|c s IH]; intro H; simpl; auto.
  apply over_cons in H as [Hc Hs]. rewrite (HPQ c Hc). simpl. auto.
Qed.

Lemma over_weaken : forall (P Q : ascii -> bool) s,
  (forall c, P c = true -> Q c = true) ->
  forallb P s = true -> forallb Q s = true.
Proof.
  intros P Q s HPQ. induction s as [|c s IH]; intro H; simpl; auto.
  apply over_cons in H as [Hc Hs]. rewrite (HPQ c Hc). simpl. auto.
Qed.

(** ** Stripping *)

Lemma lstrip_headed : forall s, headed (lstrip s).
Proof.
  induction s as [|c s IH]; simpl; auto.
  destruct (is_space c) eqn:E; simpl; auto.
Qed.

Lemma headed_lstrip : forall s, headed s -> lstrip s = s.
Proof. intros [|c s] H; simpl in *; auto. rewrite H. reflexivity. Qed.

Lemma rstrip_headed : forall s, headed s -> headed (rstrip s).
Proof.
  intros [|c s] H; simpl in *; auto.
  destruct (rstrip s); simpl; auto. rewrite H. simpl. exact H.
Qed.

Lemma rstrip_idem : forall s, rstrip (rstrip s) = rstrip s.
Proof.
  induction s as [|c s IH]; simpl; auto.
  destruct (rstrip s) as [|x t] eqn:E.
  - destruct (is_space c) eqn:Ec; simpl; auto. rewrite Ec. reflexivity.
  - change (rstrip (c :: x :: t)) with
      (match rstrip (x :: t) with
       | [] => if is_space c then [] else [c]
       | u => c :: u
       end).
    rewrite IH. reflexivity.
Qed.

Lemma py_strip_idem : forall s, py_strip (py_strip s) = py_strip s.
Proof.
  intro s. unfold py_strip.
  rewrite (headed_lstrip (rstrip (lstrip s))).
  - apply rstrip_idem.
  - apply rstrip_headed, lstrip_headed.
Qed.

Lemma lstrip_upper : forall s, lstrip (py_upper s) = py_upper (lstrip s).
Proof.
  induction s as [|c s IH]; simpl; auto.
  rewrite is_space_to_upper. destruct (is_space c); auto.
Qed.

Lemma rstrip_upper : forall s, rstrip (py_upper s) = py_upper (rstrip s).
Proof.
  induction s as [|c s IH]; auto.
  change (py_upper (c :: s)) with (to_upper c :: py_upper s).
  cbn [rstrip]. rewrite IH, is_space_to_upper.
  destruct (rstrip s); simpl; auto. destruct (is_space c); auto.
Qed.

Lemma py_strip_upper : forall s, py_strip (py_upper s) = py_upper (py_strip s).
Proof. intro s. unfold py_strip. rewrite lstrip_upper, rstrip_upper. reflexivity. Qed.

Lemma py_upper_idem : forall s, py_upper (py_upper s) = py_upper s.
Proof.
  intro s. unfold py_upper. rewrite map_map. apply map_ext.
  intro c. apply to_upper_idem.
Qed.

Lemma py_upper_fixed : forall (P : ascii -> bool) s,
  (forall c, P c = true -> to_upper c = c) ->
  forallb P s = true -> py_upper s = s.
Proof.
  intros P s HP. induction s as [|c s IH]; intro H; simpl; auto.
  apply over_cons in H as [Hc Hs]. f_equal; [apply HP, Hc | apply IH, Hs].
Qed.

(** Stripping a text without blanks changes nothing. *)
Lemma lstrip_no_space : forall s,
  forallb (fun c => negb (is_space c)) s = true -> lstrip s = s.
Proof.
  intros [|c s] H; simpl in *; auto.
  apply andb_true_iff in H as [Hc _]. apply negb_true_iff in Hc.
  rewrite Hc. reflexivity.
Qed.

Lemma rstrip_no_space : forall s,
  forallb (fun c => negb (is_space c)) s = true -> rstrip s = s.
Proof.
  induction s as [|c s IH]; intro H; simpl in *; auto.
  apply andb_true_iff in H as [Hc Hs]. apply negb_true_iff in Hc.
  rewrite (IH Hs). rewrite Hc. destruct s; reflexivity.
Qed.

Lemma py_strip_no_space : forall s,
  forallb (fun c => negb (is_space c)) s = true -> py_strip s = s.
Proof.
  intros s H. unfold py_strip. rewrite (lstrip_no_space s H).
  apply rstrip_no_space, H.
Qed.

(** ** The pattern engine *)

Lemma match_here_class : forall p prev c s,
  match_here (Chr p) prev (c :: s) = if p c then Some (1, []) else None.
Proof.
  intros p prev c s. unfold match_here. cbn [run length].
  destruct (p c); auto.
  replace (S (length s) - length s) with 1 by lia. reflexivity.
Qed.

(** Deleting the characters of a class is a filter. *)
Lemma sub_class_delete : forall p s prev,
  sub_from (Chr p) [] prev s 0 = filter (fun c => negb (p c)) s.
Proof.
  intros p s. induction s as [|c s IH]; intro prev; auto.
  cbn [sub_from]. rewrite match_here_class.
  cbn [filter]. destruct (p c); simpl; rewrite IH; reflexivity.
Qed.

Lemma re_sub_class_delete : forall p s,
  re_sub (Chr p) [] s = filter (fun c => negb (p c)) s.
Proof. intros. apply sub_class_delete. Qed.

Lemma run_len_drop_run : forall p s,
  length (drop_run p s) + run_len p s = length s.
Proof.
  intros p s. induction s as [|c s IH]; simpl; auto.
  destruct (p c); simpl; lia.
Qed.

(** A greedy repetition whose continuation always accepts takes the whole
    run. *)
Lemma star_greedy : forall p n0 s prev g,
  star p (fun _ s' g' => Some (n0 - length s', g')) prev s g
  = Some (n0 - length (drop_run p s), g).
Proof.
  intros p n0 s. induction s as [|c s IH]; intros prev g; simpl; auto.
  destruct (p c); auto. rewrite IH. reflexivity.
Qed.

Lemma match_here_plus : forall p prev c s,
  match_here (Plus p) prev (c :: s)
  = if p c then Some (S (run_len p s), []) else None.
Proof.
  intros p prev c s. unfold match_here, Plus. cbn [run].
  destruct (p c); auto. rewrite star_greedy.
  pose proof (run_len_drop_run p s). cbn [length].
  replace (S (length s) - length (drop_run p s)) with (S (run_len p s)) by lia.
  reflexivity.
Qed.

(** [MULTISPACE_RE.sub(" ", s)] folds each run of blanks to one blank. *)
Lemma sub_multispace : forall s,
  (forall prev, sub_from MULTISPACE_RE [SP] prev s 0 = collapse_run false s)
  /\ (forall prev, sub_from MULTISPACE_RE [SP] prev s (run_len is_space s)
                   = collapse_run true s).
Proof.
  unfold MULTISPACE_RE.
  induction s as [|c s [IH0 IH1]]; split; intro prev; auto.
  - cbn [sub_from collapse_run]. rewrite match_here_plus.
    destruct (is_space c).
    + rewrite IH1. reflexivity.
    + rewrite IH0. reflexivity.
  - cbn [run_len collapse_run]. destruct (is_space c) eqn:E.
    + cbn [sub_from]. apply IH1.
    + cbn [sub_from]. rewrite match_here_plus, E, IH0. reflexivity.
Qed.

Lemma re_sub_multispace : forall s, re_sub MULTISPACE_RE [SP] s = collapse s.
Proof. intro s. apply (proj1 (sub_multispace s)). Qed.

Lemma star_sound : forall R p (k : cont R) s prev g x,
  star p k prev s g = Some x ->
  exists prev' s', den (Star p) s s' g g /\ k prev' s' g = Some x.
Proof.
  intros R p k s. induction s as [|c s IH]; intros prev g x H; simpl in H.
  - exists prev, []. split; auto. exists []. auto.
  - destruct (p c) eqn:Ec.
    + destruct (star p k (Some c) s g) as [y|] eqn:Es.
      * injection H as <-. apply IH in Es as (prev' & s' & (t & Ht & Hp & _) & Hk).
        exists prev', s'. split; auto. exists (c :: t). subst s.
        simpl. rewrite Ec, Hp. auto.
      * exists prev, (c :: s). split; auto. exists []. auto.
    + exists prev, (c :: s). split; auto. exists []. auto.
Qed.

(** Soundness of the matcher: a successful run hands the continuation a
    position and groups that the pattern accounts for. *)
Lemma run_sound : forall r R (k : cont R) prev s g x,
  run r k prev s g = Some x ->
  exists prev' s' g', den r s s' g g' /\ k prev' s' g' = Some x.
Proof.
  induction r as [|p|a IHa b IHb|a IHa b IHb|p| | |n a IHa];
    intros R k prev s g x H; cbn [run] in H.
  - exists prev, s, g. simpl. auto.
  - destruct s as [|c s]; try discriminate.
    destruct (p c) eqn:Ec; try discriminate.
    exists (Some c), s, g. simpl. split; auto. exists c. auto.
  - apply IHa in H as (p1 & s1 & g1 & Ha & H).
    apply IHb in H as (p2 & s2 & g2 & Hb & H).
    exists p2, s2, g2. split; auto. simpl. exists s1, g1. auto.
  - destruct (run a k prev s g) as [y|] eqn:Ea.
    + injection H as <-. apply IHa in Ea as (p1 & s1 & g1 & Ha & H).
      exists p1, s1, g1. simpl. auto.
    + apply IHb in H as (p1 & s1 & g1 & Hb & H).
      exists p1, s1, g1. simpl. auto.
  - apply star_sound in H as (p1 & s1 & Hd & H). exists p1, s1, g. auto.
  - destruct (at_boundary prev s); try discriminate.
    exists prev, s, g. simpl. auto.
  - destruct (at_end s); try discriminate.
    exists prev, s, g. simpl. auto.
  - apply IHa in H as (p1 & s1 & g1 & Ha & H).
    exists p1, s1, ((n, firstn (length s - length s1) s) :: g1).
    split; auto. simpl. exists g1. auto.
Qed.

Lemma match_here_sound : forall r prev s n g,
  match_here r prev s = Some (n, g) ->
  exists s', den r s s' [] g /\ n = length s - length s'.
Proof.
  intros r prev s n g H. unfold match_here in H.
  apply run_sound in H as (p1 & s1 & g1 & Hd & H).
  injection H as <- <-. exists s1. auto.
Qed.

(** A search that succeeds matched the pattern at some suffix of the
    subject. *)
Lemma search_from_sound : forall r s prev i m,
  search_from r prev s i = Some m ->
  exists t s0 s', s = t ++ s0 /\ den r s0 s' [] (m_caps m)
                  /\ m_start m = i + length t
                  /\ m_end m = m_start m + (length s0 - length s').
Proof.
  intros r s. induction s as [|c s IH]; intros prev i m H; cbn [search_from] in H.
  - destruct (match_here r prev []) as [[n g]|] eqn:E; try discriminate.
    injection H as <-. apply match_here_sound in E as (s' & Hd & Hn).
    exists [], [], s'. simpl. repeat split; auto; lia.
  - destruct (match_here r prev (c :: s)) as [[n g]|] eqn:E.
    + injection H as <-. apply match_here_sound in E as (s' & Hd & Hn).
      exists [], (c :: s), s'. cbn [m_start m_end m_caps app length].
      repeat split; auto; lia.
    + apply IH in H as (t & s0 & s' & Hs & Hd & Hst & Hen).
      exists (c :: t), s0, s'. subst s. cbn [app length].
      repeat split; auto; lia.
Qed.

Lemma re_search_sound : forall r s m,
  re_search r s = Some m ->
  exists t s0 s', s = t ++ s0 /\ den r s0 s' [] (m_caps m).
Proof.
  intros r s m H. apply search_from_sound in H as (t & s0 & s' & H1 & H2 & _).
  exists t, s0, s'. auto.
Qed.


Lemma firstn_consumed : forall (t s' : str),
  firstn (length (t ++ s') - length s') (t ++ s') = t.
Proof.
  intros t s'. rewrite length_app.
  replace (length t + length s' - length s') with (length t) by lia.
  rewrite firstn_app, Nat.sub_diag, firstn_all. simpl. apply app_nil_r.
Qed.

(** A match consumes at least [min_len] characters, so the patterns handed
    to [re_sub] never match the empty string. *)
Lemma den_min_len : forall r s s' g g',
  den r s s' g g' -> length s' + min_len r <= length s.
Proof.
  induction r as [|p|a IHa b IHb|a IHa b IHb|p| | |n a IHa];
    intros s s' g g' H; simpl in H; cbn [min_len].
  - destruct H as [-> _]. lia.
  - destruct H as (c & -> & _). simpl. lia.
  - destruct H as (s1 & g1 & Ha & Hb).
    apply IHa in Ha. apply IHb in Hb. lia.
  - destruct H as [H|H]; [apply IHa in H|apply IHb in H]; lia.
  - destruct H as (t & -> & _). rewrite length_app. lia.
  - destruct H as [-> _]. lia.
  - destruct H as [-> _]. lia.
  - destruct H as (g1 & Ha & _). apply IHa in Ha. exact Ha.
Qed.

Lemma match_here_consumes : forall r prev s n g,
  match_here r prev s = Some (n, g) -> min_len r <= n.
Proof.
  intros r prev s n g H. apply match_here_sound in H as (s' & Hd & ->).
  apply den_min_len in Hd. lia.
Qed.

Lemma min_len_lit : forall w, min_len (lit w) = length w.
Proof.
  unfold lit. induction w as [|c w IH]; simpl; auto.
Qed.

Lemma substituted_patterns_consume :
  min_len NON_ALNUM_RE = 1 /\ min_len MULTISPACE_RE = 1
  /\ min_len POBOX_RE = 5 /\ min_len NON_WORD_SPACE_RE = 1
  /\ min_len NON_DIGIT_RE = 1
  /\ (forall w, min_len (whole_word w) = length w).
Proof.
  repeat split. intro w. unfold whole_word.
  cbn [seqs fold_right min_len]. rewrite min_len_lit. lia.
Qed.

Lemma table_keys_not_empty :
  forallb (fun e => truthy (fst e))
    (Plain.SUFFIX_MAP ++ Plain.DIR_MAP ++ Usps.SUFFIX_MAP ++ Usps.DIR_MAP
     ++ Parser.SUFFIX_MAP ++ Parser.DIR_MAP) = true.
Proof. vm_compute. reflexivity. Qed.

(* ------------------------------------------------------------------ *)
(** ** The Full-Address Splitter on the specification's example *)

(** On the input of the end-to-end example of section 8 the city is
    ["ILLINOIS"] and the state is empty: the components the example lists are
    not what comes back. *)
Lemma C1_claimed_result_not_returned :
  (exists street unit zipc,
     Parser.parse_full_address
       (Some (L "456 Elm St Apt 4B, Smallville, Illinois, 60606-1234"))
     = Ok (street, unit, L "ILLINOIS", [], zipc))
  /\ Parser.parse_full_address
       (Some (L "456 Elm St Apt 4B, Smallville, Illinois, 60606-1234"))
     <> Ok (L "456 ELM ST", L "APT 4B", L "SMALLVILLE", L "IL",
            L "60606-1234").
Proof.
  split.
  - do 3 eexists. vm_compute. reflexivity.
  - vm_compute. discriminate.
Qed.

(** C1 (as amended).  With four comma segments the last one is the
    state-and-ZIP tail and the one before it the city, so for
    ["456 Elm St Apt 4B, Smallville, Illinois, 60606-1234"] the splitter
    returns street ["456 ELM ST SMALLVILLE"], unit ["APT 4B"], city
    ["ILLINOIS"], an empty state and zip ["60606-1234"].  The components of
    the example are what it returns when state and ZIP share the last
    segment. *)
Theorem C1_parse_full_address_example :
  Parser.parse_full_address
    (Some (L "456 Elm St Apt 4B, Smallville, Illinois, 60606-1234"))
  = Ok (L "456 ELM ST SMALLVILLE", L "APT 4B", L "ILLINOIS", [],
        L "60606-1234")
  /\ Parser.parse_full_address
       (Some (L "456 Elm St Apt 4B, Smallville, Illinois 60606-1234"))
     = Ok (L "456 ELM ST", L "APT 4B", L "SMALLVILLE", L "IL",
           L "60606-1234").
Proof. split; vm_compute; reflexivity. Qed.

(** The two-segment example of section 8. *)
Example parse_two_segments :
  Parser.parse_full_address
    (Some (L "100 North Broadway Suite 200, Bigcity TX 73301"))
  = Ok (L "100 N BROADWAY", L "STE 200", L "BIGCITY", L "TX", L "73301").
Proof. vm_compute. reflexivity. Qed.

(* ------------------------------------------------------------------ *)
(** ** The ZIP Standardizer *)

(** A ZIP without any digit comes back as it was given, not emptied. *)
Lemma C5_abc_is_not_emptied :
  standardize_zip (L "abc") = L "abc" /\ standardize_zip (L "abc") <> [].
Proof. split; vm_compute; [reflexivity|discriminate]. Qed.

(** C5 (as amended).  [standardize_zip("123456789") = "12345-6789"],
    [standardize_zip("12345") = "12345"], and [standardize_zip("abc")] is
    the trimmed input ["abc"]: a text without digits passes through. *)
Theorem C5_standardize_zip_examples :
  standardize_zip (L "123456789") = L "12345-6789"
  /\ standardize_zip (L "12345") = L "12345"
  /\ standardize_zip (L "abc") = L "abc".
Proof. repeat split; vm_compute; reflexivity. Qed.

(* ------------------------------------------------------------------ *)
(** ** The State Standardizer's fallback *)

(** ["N.Y."] meets every condition of the fallback, its cleaned form is
    ["NY"], and what comes back is ["N.Y."]. *)
Lemma C6_fallback_keeps_punctuation :
  truthy (L "N.Y.") = true
  /\ (length (py_upper (py_strip (L "N.Y."))) =? 2)
     && py_isalpha (py_upper (py_strip (L "N.Y."))) = false
  /\ table_get Usps.STATE_MAP (state_cleaned (L "N.Y.")) = None
  /\ table_get Usps.STATE_MAP
       (py_replace (L " STATE") [] (state_cleaned (L "N.Y."))) = None
  /\ state_cleaned (L "N.Y.") = L "NY"
  /\ Usps.standardize_state (L "N.Y.") = L "N.Y."
  /\ Usps.standardize_state (L "N.Y.") <> state_cleaned (L "N.Y.").
Proof. repeat split; vm_compute; try reflexivity; discriminate. Qed.

(** C6 (as amended).  For a non-empty state input that is not a 2-letter
    alphabetic code and whose cleaned form is in the State Table neither
    directly nor after removing [" STATE"], [standardize_state] returns the
    trimmed, upper-cased input, punctuation and inner white space kept (the
    variable [s], not [s_clean]).  This holds for the table of every copy. *)
Theorem C6_standardize_state_fallback :
  forall (STATE_MAP : list (str * str)) (state : str),
    truthy state = true ->
    (length (py_upper (py_strip state)) =? 2)
      && py_isalpha (py_upper (py_strip state)) = false ->
    table_get STATE_MAP (state_cleaned state) = None ->
    table_get STATE_MAP (py_replace (L " STATE") [] (state_cleaned state))
      = None ->
    standardize_state STATE_MAP state = py_upper (py_strip state).
Proof.
  intros STATE_MAP state Hne H2 Hclean Halt.
  unfold standardize_state, state_cleaned in *.
  rewrite Hne. cbn [negb]. rewrite H2, Hclean, Halt. reflexivity.
Qed.

Lemma C6_fallback_witness :
  truthy (L "N.Y.") = true
  /\ Usps.standardize_state (L "N.Y.") = py_upper (py_strip (L "N.Y.")).
Proof.
  split; [reflexivity|].
  apply (C6_standardize_state_fallback Usps.STATE_MAP (L "N.Y."));
    vm_compute; reflexivity.
Defined.

(* ------------------------------------------------------------------ *)
(** ** The Lexical Cleaner *)

(** The underscore of ["a_b"] survives the cleaner. *)
Lemma C7_underscore_is_kept :
  upper_and_cleanup (Some (L "a_b")) = L "A_B"
  /\ spec_clean (Some (L "a_b")) = L "AB"
  /\ upper_and_cleanup (Some (L "a_b")) <> spec_clean (Some (L "a_b")).
Proof. repeat split; vm_compute; try reflexivity; discriminate. Qed.

Lemma kept_char_pattern : forall c,
  negb (negb (is_word c || is_space c || chr_eqb c "#" || chr_eqb c "-"))
  = kept_char c.
Proof. intro c. rewrite negb_involutive. reflexivity. Qed.

Lemma upper_and_cleanup_some : forall t,
  upper_and_cleanup (Some t)
  = collapse (filter kept_char (py_upper (py_strip t))).
Proof.
  intros [|c t]; [reflexivity|].
  unfold upper_and_cleanup. cbn [truthy negb].
  rewrite re_sub_multispace. unfold NON_ALNUM_RE.
  rewrite re_sub_class_delete.
  rewrite (filter_ext _ _ kept_char_pattern). reflexivity.
Qed.

(** C7 (as amended, on ASCII text).  [upper_and_cleanup] is total; for
    ASCII text it trims surrounding white space, upper-cases, removes every
    character that is not a letter, a digit, an underscore, white space, [#]
    or [-] (the class [\w] keeps the underscore), then folds each white-space
    run to one blank; empty or absent input yields the empty string. *)
Theorem C7_upper_and_cleanup_spec :
  forall t : str,
    ascii_text t = true ->
    upper_and_cleanup (Some t)
    = collapse (filter kept_char (py_upper (py_strip t)))
    /\ upper_and_cleanup None = []
    /\ upper_and_cleanup (Some []) = [].
Proof.
  intros t _. split; [apply upper_and_cleanup_some | split; reflexivity].
Qed.

Lemma C7_maple_avenue :
  ascii_text (L "  12-34 w. Maple_Avenue,   #5 ") = true
  /\ upper_and_cleanup (Some (L "  12-34 w. Maple_Avenue,   #5 "))
     = L "12-34 W MAPLE_AVENUE #5"
  /\ upper_and_cleanup (Some (L "  12-34 w. Maple_Avenue,   #5 "))
     = collapse (filter kept_char
                   (py_upper (py_strip (L "  12-34 w. Maple_Avenue,   #5 "))))
  /\ upper_and_cleanup None = []
  /\ upper_and_cleanup (Some []) = [].
Proof.
  split; [reflexivity|]. split; [vm_compute; reflexivity|].
  apply (C7_upper_and_cleanup_spec (L "  12-34 w. Maple_Avenue,   #5 ")).
  reflexivity.
Defined.

(* ------------------------------------------------------------------ *)
(** ** PO Box lines in the Unit Extractor *)

(** C8.  When the input, after commas are replaced by blanks and white space
    is collapsed and trimmed, matches the PO-Box pattern, [extract_unit]
    returns that text unchanged and no unit. *)
Theorem C8_extract_unit_po_box :
  forall address : str,
    is_some (re_search POBOX_RE (squeeze (py_replace (L ",") (L " ") address)))
      = true ->
    extract_unit address
    = (squeeze (py_replace (L ",") (L " ") address), None).
Proof.
  intros [|c address] H.
  - vm_compute in H. discriminate.
  - unfold extract_unit. cbn [truthy negb]. cbv zeta. rewrite H. reflexivity.
Qed.

(** In particular [extract_unit("PO BOX 789") = ("PO BOX 789", None)]. *)
Lemma C8_po_box_789 :
  is_some (re_search POBOX_RE
             (squeeze (py_replace (L ",") (L " ") (L "PO BOX 789")))) = true
  /\ extract_unit (L "PO BOX 789") = (L "PO BOX 789", None).
Proof.
  split; [vm_compute; reflexivity|].
  rewrite (C8_extract_unit_po_box (L "PO BOX 789")); vm_compute; reflexivity.
Defined.

(* ------------------------------------------------------------------ *)
(** ** The Full-Address Splitter never raises *)

Lemma index_back_ok : forall (A : Type) (l : list A) n,
  1 <= n -> n <= length l -> exists x, index_back l n = Ok x.
Proof.
  intros A l n H1 H2. unfold index_back.
  destruct (Nat.leb_spec 1 n); try lia.
  destruct (Nat.leb_spec n (length l)); try lia. cbn [andb].
  destruct (nth_error l (length l - n)) as [x|] eqn:E; eauto.
  apply nth_error_None in E. lia.
Qed.

Lemma index_at_ok : forall (A : Type) (l : list A) i,
  i < length l -> exists x, index_at l i = Ok x.
Proof.
  intros A l i H. unfold index_at.
  destruct (nth_error l i) as [x|] eqn:E; eauto.
  apply nth_error_None in E. lia.
Qed.

(** The guards of the [try] block keep every index in range: the parsing
    phase always completes its partition. *)
Lemma parse_phase_completes : forall s parts,
  exists p, Parser.parse_phase s parts = Ok p.
Proof.
  intros s parts. unfold Parser.parse_phase.
  destruct (Nat.leb_spec 3 (length parts)) as [H3|H3].
  - destruct (index_back_ok _ parts 2) as [x1 E1]; try lia.
    destruct (index_back_ok _ parts 1) as [x2 E2]; try lia.
    rewrite E1, E2. cbn [bind].
    destruct (Parser.cut_zip x2 (py_strip x2)), (extract_unit _). eauto.
  - destruct (Nat.eqb_spec (length parts) 2) as [H2|H2].
    + destruct (index_at_ok _ parts 0) as [x1 E1]; try lia.
      destruct (index_at_ok _ parts 1) as [x2 E2]; try lia.
      rewrite E1, E2. cbn [bind].
      destruct (Parser.cut_zip x2 x2) as [zipc without_zip].
      destruct (py_split without_zip) as [|t ts] eqn:Et; cbn [truthy_list bind].
      * destruct (extract_unit x1). eauto.
      * destruct (index_back_ok _ (t :: ts) 1) as [x3 E3];
          try (cbn [length]; lia).
        rewrite E3. cbn [bind]. destruct (extract_unit x1). eauto.
    + destruct (Parser.cut_zip s s) as [zipc before_zip].
      destruct (Parser.first_numeric _ 0); eauto.
      destruct (Nat.leb_spec 3 (length (py_split before_zip))); eauto.
      destruct (index_back_ok _ (py_split before_zip) 1) as [x3 E3];
        try lia.
      rewrite E3. cbn [bind]. destruct (_ || _); eauto.
Qed.

(** C9.  [parse_full_address] returns for every input and never hands an
    exception to its caller: the result is either the five empty strings (the
    answer for empty input and for any raise inside the [try]) or the
    normalised partition that the parsing phase completed. *)
Theorem C9_parse_full_address_never_raises :
  forall full : option str,
    let s := Parser.flatten_breaks (or_empty full) in
    exists t, Parser.parse_full_address full = Ok t
      /\ (t = Parser.empty5
          \/ exists p, Parser.parse_phase s (Parser.segments s) = Ok p
                       /\ t = Parser.normalize5 p)
      /\ (forall e, Parser.parse_phase s (Parser.segments s) = Raise e ->
                    t = Parser.empty5).
Proof.
  intros full s. unfold Parser.parse_full_address. fold s.
  destruct (truthy_opt full); cbn [negb].
  - cbv zeta.
    destruct (Parser.parse_phase s (Parser.segments s)) as [p|e] eqn:E.
    + exists (Parser.normalize5 p). split; [reflexivity|]. split.
      * right. exists p. auto.
      * intros e He. discriminate.
    + exists Parser.empty5. auto.
  - exists Parser.empty5. split; [reflexivity|]. split; auto.
Qed.

(* ------------------------------------------------------------------ *)
(** ** The unit returned by the Unit Extractor *)

Lemma den_seqs_app : forall l1 l2 s s' g g',
  den (seqs (l1 ++ l2)) s s' g g' ->
  exists s1 g1, den (seqs l1) s s1 g g1 /\ den (seqs l2) s1 s' g1 g'.
Proof.
  induction l1 as [|r l1 IH]; intros l2 s s' g g' H.
  - exists s, g. simpl. auto.
  - cbn [app seqs fold_right den] in H. destruct H as (s1 & g1 & Hr & H).
    apply IH in H as (s2 & g2 & H1 & H2).
    exists s2, g2. split; auto. cbn [seqs fold_right den]. exists s1, g1. auto.
Qed.

Lemma den_alts : forall l s s' g g',
  den (alts l) s s' g g' -> exists r, In r l /\ den r s s' g g'.
Proof.
  induction l as [|a l IH]; intros s s' g g' H.
  - simpl in H. destruct H as (c & _ & Hc & _). discriminate.
  - destruct l as [|b l].
    + exists a. simpl. auto.
    + change (alts (a :: b :: l)) with (Alt a (alts (b :: l))) in H.
      cbn [den] in H. destruct H as [H|H].
      * exists a. simpl. auto.
      * apply IH in H as (r & Hin & Hr). exists r. split; auto. right. exact Hin.
Qed.

Lemma den_ilit : forall w s s' g g',
  den (ilit w) s s' g g' ->
  exists t, s = t ++ s' /\ py_upper t = py_upper w /\ g' = g.
Proof.
  unfold ilit. induction w as [|x w IH]; intros s s' g g' H.
  - simpl in H. destruct H as [-> ->]. exists []. auto.
  - cbn [map seqs fold_right den ichr] in H.
    destruct H as (s1 & g1 & (c & -> & Hc & ->) & H).
    apply IH in H as (t & -> & Ht & ->).
    exists (c :: t). repeat split; auto. simpl.
    apply chr_eqb_eq in Hc. rewrite Hc. f_equal. exact Ht.
Qed.

Lemma den_opt_chr : forall c s s' g g',
  den (Opt (chr c)) s s' g g' -> g' = g.
Proof.
  intros c s s' g g' H. simpl in H.
  destruct H as [(x & _ & _ & H)|[_ H]]; exact H.
Qed.

Lemma den_plus : forall p s s' g g',
  den (Plus p) s s' g g' ->
  exists c t, s = (c :: t) ++ s' /\ forallb p (c :: t) = true /\ g' = g.
Proof.
  intros p s s' g g' H. simpl in H.
  destruct H as (s1 & g1 & (c & -> & Hc & ->) & (t & -> & Ht & ->)).
  exists c, t. simpl. rewrite Hc, Ht. auto.
Qed.

(** The groups of a match of the part shared by the two unit patterns. *)
Lemma den_unit_core : forall s s' g g',
  den (seqs unit_core) s s' g g' ->
  exists d v w,
    g' = ("value"%string, v) :: ("designator"%string, d) :: g
    /\ In w UNIT_DESIGNATORS /\ py_upper d = py_upper w
    /\ v <> [] /\ forallb unit_value_char v = true.
Proof.
  intros s s' g g' H. unfold unit_core in H.
  cbn [seqs fold_right den] in H.
  destruct H as (s1 & g1 & (g0 & Hd & ->) & s2 & g2 & H2 & s3 & g3 &
                 (_ & _ & _ & ->) & s4 & g4 & H4 & s5 & g5 & H5 & s6 & g6 &
                 (_ & _ & _ & ->) & s7 & g7 & (g8 & Hv & ->) & -> & ->).
  apply den_opt_chr in H2, H4, H5. subst g2 g4 g5.
  unfold designator_alts in Hd. apply den_alts in Hd as (r & Hin & Hr).
  apply in_map_iff in Hin as (w & <- & Hw).
  apply den_ilit in Hr as (t & -> & Ht & ->).
  apply den_plus in Hv as (c & tv & -> & Hp & ->).
  rewrite !firstn_consumed.
  exists t, (c :: tv), w. repeat split; auto. discriminate.
Qed.

Lemma den_assertion_edges : forall l s s' g g' (a b : re),
  (a = Bnd \/ a = Eos) -> (b = Bnd \/ b = Eos) ->
  den (seqs ([a] ++ l ++ [b])) s s' g g' -> den (seqs l) s s' g g'.
Proof.
  intros l s s' g g' a b Ha Hb H.
  apply den_seqs_app in H as (s1 & g1 & H1 & H).
  apply den_seqs_app in H as (s2 & g2 & H2 & H3).
  assert (s1 = s /\ g1 = g) as [-> ->].
  { destruct Ha as [-> | ->]; simpl in H1;
      destruct H1 as (? & ? & [-> ->] & [-> ->]); auto. }
  assert (s' = s2 /\ g' = g2) as [-> ->].
  { destruct Hb as [-> | ->]; simpl in H3;
      destruct H3 as (? & ? & [-> ->] & [-> ->]); auto. }
  exact H2.
Qed.

Lemma trailing_groups : forall a m,
  re_search trailing_unit_re a = Some m ->
  exists d v w,
    m_caps m = [("value"%string, v); ("designator"%string, d)]
    /\ In w UNIT_DESIGNATORS /\ py_upper d = py_upper w
    /\ v <> [] /\ forallb unit_value_char v = true.
Proof.
  intros a m H. apply re_search_sound in H as (t & s0 & s' & _ & H).
  unfold trailing_unit_re in H.
  apply den_assertion_edges in H; auto.
  apply den_unit_core in H. exact H.
Qed.

Lemma mid_groups : forall a m,
  re_search mid_unit_re a = Some m ->
  exists d v w,
    m_caps m = [("value"%string, v); ("designator"%string, d)]
    /\ In w UNIT_DESIGNATORS /\ py_upper d = py_upper w
    /\ v <> [] /\ forallb unit_value_char v = true.
Proof.
  intros a m H. apply re_search_sound in H as (t & s0 & s' & _ & H).
  unfold mid_unit_re in H.
  apply den_seqs_app in H as (s1 & g1 & H1 & H).
  apply den_seqs_app in H as (s2 & g2 & H2 & H3).
  assert (g1 = []) as ->.
  { simpl in H1.
    destruct H1 as (? & ? & [(? & _ & _ & ->)|(? & _ & _ & ->)]
                    & ? & ? & (_ & _ & _ & ->) & _ & ->); reflexivity. }
  assert (m_caps m = g2) as ->.
  { simpl in H3. destruct H3 as (? & ? & [_ ->] & [_ ->]). reflexivity. }
  apply den_unit_core in H2. exact H2.
Qed.

(** Canonicalising any spelling of a designator gives one of the seven
    returned designators. *)
Lemma canon_designator_returned : forall w,
  In w UNIT_DESIGNATORS ->
  let designator :=
    py_replace (L "SUITE") (L "STE")
      (py_replace (L "APARTMENT") (L "APT") (py_upper w)) in
  In (if str_eqb designator (L "#") then L "APT" else designator)
     RETURNED_DESIGNATORS.
Proof.
  intros w Hw. unfold UNIT_DESIGNATORS in Hw. cbn [map In] in Hw.
  repeat (destruct Hw as [<-|Hw]; [vm_compute; tauto|]).
  destruct Hw.
Qed.

Lemma unit_of_shape : forall m d v w,
  m_caps m = [("value"%string, v); ("designator"%string, d)] ->
  In w UNIT_DESIGNATORS -> py_upper d = py_upper w ->
  v <> [] -> forallb unit_value_char v = true ->
  exists d' v',
    unit_of m = d' ++ [SP] ++ v'
    /\ In d' RETURNED_DESIGNATORS
    /\ v' <> [] /\ forallb unit_value_upper v' = true.
Proof.
  intros m d v w Hc Hw Hd Hv Hp.
  unfold unit_of, canon_designator, group. rewrite Hc.
  cbn [lookup_group String.eqb Ascii.eqb Bool.eqb]. rewrite Hd.
  eexists _, (py_upper v). split; [reflexivity|]. split; [|split].
  - apply canon_designator_returned, Hw.
  - destruct v; [contradiction|discriminate].
  - apply (over_upper unit_value_char); auto. apply value_char_upper.
Qed.

Lemma returned_unit_shape :
  forall (address street unit : str),
    extract_unit address = (street, Some unit) ->
    exists d v,
      unit = d ++ [SP] ++ v
      /\ In d RETURNED_DESIGNATORS
      /\ v <> [] /\ forallb unit_value_upper v = true.
Proof.
  intros address street unit H. unfold extract_unit in H.
  destruct (negb (truthy address)); [discriminate|]. cbv zeta in H.
  destruct (is_some (re_search POBOX_RE _)); [discriminate|].
  destruct (re_search trailing_unit_re _) as [m|] eqn:Et.
  - injection H as _ <-.
    apply trailing_groups in Et as (d & v & w & Hc & Hw & Hd & Hv & Hp).
    eapply unit_of_shape; eauto.
  - destruct (re_search mid_unit_re _) as [m2|] eqn:Em; [|discriminate].
    injection H as _ <-.
    apply mid_groups in Em as (d & v & w & Hc & Hw & Hd & Hv & Hp).
    eapply unit_of_shape; eauto.
Qed.

(** *** The designator rewritten *)










(** Each spelling the pattern accepts, and the designator that comes back:
    APARTMENT, SUITE and [#] are rewritten, UNIT, FLOOR and ROOM are not. *)
Example extract_unit_designators :
  extract_unit (L "1 Main Apartment 5") = (L "1 Main", Some (L "APT 5"))
  /\ extract_unit (L "1 Main Suite 5") = (L "1 Main", Some (L "STE 5"))
  /\ extract_unit (L "1 Main #5") = (L "1 Main", Some (L "APT 5"))
  /\ extract_unit (L "1 Main Unit 5") = (L "1 Main", Some (L "UNIT 5"))
  /\ extract_unit (L "1 Main Floor 5") = (L "1 Main", Some (L "FLOOR 5"))
  /\ extract_unit (L "1 Main Room 5") = (L "1 Main", Some (L "ROOM 5"))
  /\ extract_unit (L "1 Main Ste 5") = (L "1 Main", Some (L "STE 5"))
  /\ extract_unit (L "1 Main Fl 5") = (L "1 Main", Some (L "FL 5"))
  /\ extract_unit (L "1 Main Rm 5") = (L "1 Main", Some (L "RM 5")).
Proof. repeat split; vm_compute; reflexivity. Qed.

(** The other two examples of section 8. *)
Example extract_unit_examples :
  extract_unit (L "456 ELM ST APT 4B") = (L "456 ELM ST", Some (L "APT 4B"))
  /\ extract_unit (L "100 MAIN ST") = (L "100 MAIN ST", None).
Proof. split; vm_compute; reflexivity. Qed.

(* ------------------------------------------------------------------ *)
(** ** What the normaliser's fields look like *)

Lemma collapse_run_clean : forall s b,
  forallb (fun c => is_space c || clean_char c) s = true ->
  clean_text (collapse_run b s) = true.
Proof.
  unfold clean_text. induction s as [|c s IH]; intros b H; auto.
  apply over_cons in H as [Hc Hs]. cbn [collapse_run].
  destruct (is_space c) eqn:E.
  - destruct b; [apply IH, Hs|]. apply over_cons. split; [reflexivity|].
    apply IH, Hs.
  - apply over_cons. split; [exact Hc|]. apply IH, Hs.
Qed.

Lemma kept_upper_over : forall s,
  forallb (fun c => is_space c || clean_char c)
    (filter kept_char (py_upper s)) = true.
Proof.
  induction s as [|c s IH]; auto. cbn [py_upper map filter].
  destruct (kept_char (to_upper c)) eqn:E; [|exact IH].
  apply over_cons. split; [|exact IH].
  destruct (is_space (to_upper c)) eqn:Es; [reflexivity|].
  apply kept_upper_clean; assumption.
Qed.

Lemma upper_and_cleanup_clean : forall text,
  clean_text (upper_and_cleanup text) = true.
Proof.
  intros [t|]; [|reflexivity]. rewrite upper_and_cleanup_some.
  apply collapse_run_clean, kept_upper_over.
Qed.

Lemma returned_designators_clean : forall d,
  In d RETURNED_DESIGNATORS -> clean_text d = true.
Proof.
  intros d Hd. unfold RETURNED_DESIGNATORS in Hd. cbn [map In] in Hd.
  repeat (destruct Hd as [<-|Hd]; [reflexivity|]). destruct Hd.
Qed.

Lemma extract_unit_clean : forall a street unit,
  clean_text a = true -> extract_unit a = (street, unit) ->
  clean_text street = true
  /\ match unit with Some u => clean_text u = true /\ truthy u = true
                | None => True end.
Proof.
  intros a street unit Ha H. unfold clean_text in *.
  destruct unit as [u|].
  - split.
    + unfold extract_unit in H.
      destruct (negb (truthy a)); [discriminate|]. cbv zeta in H.
      assert (Hq : forallb clean_char
                     (squeeze (py_replace (L ",") (L " ") a)) = true)
        by (apply over_squeeze, over_replace; auto).
      destruct (is_some (re_search POBOX_RE _)); [discriminate|].
      destruct (re_search trailing_unit_re _) as [m|].
      * injection H as <- _. apply over_strip, over_firstn, Hq.
      * destruct (re_search mid_unit_re _) as [m2|]; [|discriminate].
        injection H as <- _. apply over_squeeze; auto.
        apply over_strip, over_app. split.
        -- apply over_firstn, Hq.
        -- apply over_skipn, Hq.
    + apply returned_unit_shape in H as (d & v & -> & Hd & Hv & Hp). split.
      * apply over_app. split; [apply returned_designators_clean, Hd|].
        apply over_app. split; [reflexivity|].
        apply (over_weaken unit_value_upper); auto. apply value_upper_clean.
      * destruct d; reflexivity.
  - split; auto. unfold extract_unit in H.
    destruct (negb (truthy a)); [injection H as <-; reflexivity|].
    cbv zeta in H.
    assert (Hq : forallb clean_char
                   (squeeze (py_replace (L ",") (L " ") a)) = true)
      by (apply over_squeeze, over_replace; auto).
    destruct (is_some (re_search POBOX_RE _)); [injection H as <-; exact Hq|].
    destruct (re_search trailing_unit_re _) as [m|]; [discriminate|].
    destruct (re_search mid_unit_re _) as [m2|]; [discriminate|].
    injection H as <-. exact Hq.
Qed.

Lemma table_get_value : forall (P : str -> bool) t k v,
  forallb (fun e => P (snd e)) t = true -> table_get t k = Some v ->
  P v = true.
Proof.
  intros P t k v. induction t as [|[k' v'] t IH]; intros Ht H; simpl in *.
  - discriminate.
  - apply andb_true_iff in Ht as [Hv Ht].
    destruct (str_eqb k k'); [injection H as <-; exact Hv|auto].
Qed.

Lemma re_sub_non_digit : forall s, re_sub NON_DIGIT_RE [] s = filter is_digit s.
Proof.
  intro s. unfold NON_DIGIT_RE. rewrite re_sub_class_delete.
  apply filter_ext. intro c. apply negb_involutive.
Qed.

Lemma filter_digits_only : forall s, digits_only (filter is_digit s) = true.
Proof.
  unfold digits_only. induction s as [|c s IH]; auto. simpl.
  destruct (is_digit c) eqn:E; auto. simpl. rewrite E. exact IH.
Qed.

Lemma digits_filter_fixed : forall s,
  digits_only s = true -> filter is_digit s = s.
Proof.
  unfold digits_only. induction s as [|c s IH]; intro H; auto.
  apply over_cons in H as [Hc Hs]. simpl. rewrite Hc, IH; auto.
Qed.

Lemma nine_digits_plus4 : forall z,
  length z = 9 -> digits_only z = true ->
  zip_plus4 (upto 5 z ++ L "-" ++ from 5 z) = true.
Proof.
  intros z Hl Hd.
  do 9 (destruct z as [|? z]; [discriminate|]).
  destruct z; [|discriminate].
  unfold digits_only in Hd. cbn [forallb] in Hd.
  repeat (apply andb_true_iff in Hd as [? Hd]).
  unfold zip_plus4, digits_only, upto, from.
  cbn [firstn skipn app length L list_ascii_of_string forallb Nat.eqb str_eqb].
  repeat match goal with H : is_digit _ = true |- _ => rewrite H; clear H end.
  reflexivity.
Qed.

(** The forms [standardize_zip] returns. *)
Lemma standardize_zip_shape : forall zip_code,
  standardize_zip zip_code = []
  \/ five_digits (standardize_zip zip_code) = true
  \/ zip_plus4 (standardize_zip zip_code) = true
  \/ (digits_only (standardize_zip zip_code) = true
      /\ standardize_zip zip_code = filter is_digit zip_code)
  \/ (standardize_zip zip_code = py_strip zip_code
      /\ filter is_digit zip_code = []).
Proof.
  intro zc. unfold standardize_zip.
  destruct (negb (truthy zc)); [left; reflexivity|]. cbv zeta.
  rewrite re_sub_non_digit.
  destruct (Nat.eqb_spec (length (filter is_digit zc)) 9) as [E9|E9].
  - right; right; left. apply nine_digits_plus4; auto.
    apply filter_digits_only.
  - destruct (Nat.eqb_spec (length (filter is_digit zc)) 5) as [E5|E5].
    + right; left. unfold five_digits. rewrite E5, filter_digits_only.
      reflexivity.
    + destruct (filter is_digit zc) as [|d z] eqn:Ez.
      * right; right; right; right. auto.
      * right; right; right; left. cbn [truthy]. rewrite <- Ez.
        split; [apply filter_digits_only|reflexivity].
Qed.

Lemma or_empty_some : forall s, or_empty (Some s) = s.
Proof. intros [|c s]; reflexivity. Qed.

Lemma isalpha_upper_code : forall s,
  (length (py_upper s) =? 2) && py_isalpha (py_upper s) = true ->
  two_letter_code (py_upper s) = true.
Proof.
  intros s H. apply andb_true_iff in H as [Hl Ha].
  unfold two_letter_code. rewrite Hl. cbn [andb].
  unfold py_isalpha in Ha. apply andb_true_iff in Ha as [_ Ha].
  clear Hl. induction s as [|c s IH]; auto.
  cbn [py_upper map forallb] in *. apply andb_true_iff in Ha as [Hc Ha].
  rewrite (alpha_to_upper c Hc). cbn [andb]. apply IH, Ha.
Qed.

Lemma normalize_po_box_clean : forall s,
  clean_text s = true -> clean_text (normalize_po_box s) = true.
Proof.
  intros s H. unfold normalize_po_box, clean_text in *.
  destruct (negb (truthy s)); auto. cbv zeta.
  apply over_squeeze; auto. apply over_replace; auto.
  apply over_re_sub; auto.
Qed.

Lemma po_box_inline_clean : forall s,
  clean_text s = true ->
  clean_text (py_replace (L ".") [] (re_sub POBOX_RE (L "PO BOX") s)) = true.
Proof.
  intros s H. unfold clean_text in *.
  apply over_replace; auto. apply over_re_sub; auto.
Qed.

Section Fields.

Variable SUFFIX_MAP DIR_MAP STATE_MAP : list (str * str).
Variable po_box_line : str -> str.

Hypothesis suffix_clean :
  forallb (fun e => clean_text (snd e)) SUFFIX_MAP = true.
Hypothesis dir_clean :
  forallb (fun e => clean_text (snd e)) DIR_MAP = true.
Hypothesis state_codes :
  forallb (fun e => two_letter_code (snd e)) STATE_MAP = true.
Hypothesis po_box_clean :
  forall s, clean_text s = true -> clean_text (po_box_line s) = true.

Lemma replace_suffixes_and_dirs_clean : forall s,
  clean_text s = true ->
  clean_text (replace_suffixes_and_dirs SUFFIX_MAP DIR_MAP s) = true.
Proof.
  intros s H. unfold replace_suffixes_and_dirs, clean_text in *.
  destruct (negb (truthy s)); auto. cbv zeta.
  apply over_squeeze; auto.
  apply over_apply_table; [exact suffix_clean|].
  apply over_apply_table; [exact dir_clean|exact H].
Qed.

(** The forms [standardize_state] returns. *)
Lemma standardize_state_shape : forall state,
  standardize_state STATE_MAP state = []
  \/ two_letter_code (standardize_state STATE_MAP state) = true
  \/ standardize_state STATE_MAP state = py_upper (py_strip state).
Proof.
  intro st. unfold standardize_state.
  destruct (negb (truthy st)); [left; reflexivity|]. cbv zeta.
  destruct ((length (py_upper (py_strip st)) =? 2)
            && py_isalpha (py_upper (py_strip st))) eqn:E2.
  - right; left. apply isalpha_upper_code, E2.
  - destruct (table_get STATE_MAP _) as [code|] eqn:E1.
    + right; left. exact (table_get_value two_letter_code _ _ _ state_codes E1).
    + destruct (table_get STATE_MAP (py_replace _ _ _)) as [code|] eqn:E3.
      * right; left.
        exact (table_get_value two_letter_code _ _ _ state_codes E3).
      * right; right. reflexivity.
Qed.

(** The street and unit lines after the first two steps of the normaliser
    are clean text. *)
Lemma lines_clean : forall a1 a2 x1 x2,
  clean_text a1 = true -> clean_text a2 = true ->
  (if is_some (re_search POBOX_RE a1) then (po_box_line a1, a2)
   else if negb (truthy a2) then
     let '(a1', extracted_unit) := extract_unit a1 in
     (a1', if truthy_opt extracted_unit then or_empty extracted_unit else a2)
   else (a1, a2)) = (x1, x2) ->
  clean_text x1 = true /\ clean_text x2 = true.
Proof.
  intros a1 a2 x1 x2 H1 H2 H.
  destruct (is_some (re_search POBOX_RE a1)).
  - injection H as <- <-. auto.
  - destruct (negb (truthy a2)).
    + destruct (extract_unit a1) as [s u] eqn:E.
      apply extract_unit_clean in E as [Hs Hu]; auto.
      injection H as <- <-. split; auto.
      destruct u as [u|]; cbn [truthy_opt]; auto.
      destruct Hu as [Hu Ht]. rewrite Ht, or_empty_some. exact Hu.
    + injection H as <- <-. auto.
Qed.

Lemma normalizer_fields : forall a1 a2 c st z,
  let r :=
    standardize_address_components_local SUFFIX_MAP DIR_MAP STATE_MAP
      po_box_line a1 a2 c st z in
  clean_text (address1 r) = true
  /\ clean_text (address2 r) = true
  /\ clean_text (city r) = true
  /\ state r = standardize_state STATE_MAP (or_empty st)
  /\ zip r = standardize_zip (or_empty z)
  /\ city r = upper_and_cleanup c.
Proof.
  intros a1 a2 c st z. unfold standardize_address_components_local.
  destruct (if is_some (re_search POBOX_RE (upper_and_cleanup (Some a1)))
            then _ else _) as [x1 x2] eqn:E.
  apply lines_clean in E as [H1 H2];
    [| apply upper_and_cleanup_clean
     | destruct (truthy_opt a2); [apply upper_and_cleanup_clean|reflexivity]].
  cbv zeta. cbn [address1 address2 city state zip].
  repeat split.
  - unfold clean_text. apply over_squeeze; auto.
    apply replace_suffixes_and_dirs_clean, H1.
  - unfold clean_text. apply over_squeeze; auto.
    assert (H3 : clean_text
              (if truthy x2
               then squeeze (py_replace (L "SUITE") (L "STE")
                      (py_replace (L "APARTMENT") (L "APT") x2))
               else x2) = true).
    { destruct (truthy x2); auto. unfold clean_text.
      apply over_squeeze; auto. apply over_replace; auto.
      apply over_replace; auto. }
    destruct (truthy (if truthy x2 then _ else x2)); auto.
    apply replace_suffixes_and_dirs_clean, H3.
  - apply upper_and_cleanup_clean.
Qed.

End Fields.

Lemma usps_tables_clean :
  forallb (fun e => clean_text (snd e)) Usps.SUFFIX_MAP = true
  /\ forallb (fun e => clean_text (snd e)) Usps.DIR_MAP = true
  /\ forallb (fun e => two_letter_code (snd e)) Usps.STATE_MAP = true.
Proof. repeat split; vm_compute; reflexivity. Qed.

(* ------------------------------------------------------------------ *)
(** ** The invariant of [AddressComponents] *)

(** A state that is not a table entry and a three-digit ZIP pass through. *)
Lemma C2_pass_through_breaks_invariant :
  let r :=
    Usps.standardize_address_components_local (L "1 Main St") None
      (Some (L "Town")) (Some (L "Narnia")) (Some (L "123")) in
  state r = L "NARNIA" /\ zip r = L "123"
  /\ AddressComponents_invariant r = false.
Proof. repeat split; vm_compute; reflexivity. Qed.

(** C2 (as amended, on ASCII text).  For every input 5-tuple whose street,
    unit and city are ASCII text, the record the normaliser returns has
    street, unit and city that are clean text (empty, or over capitals,
    digits, underscore, blank, [#] and [-]); its state is empty, a 2-letter
    code, or the trimmed upper-cased input passed through; its zip is empty,
    5 digits, [DDDDD-DDDD], the digits of the input (another count), or the
    trimmed input when it has no digit. *)
Theorem C2_normalizer_invariant :
  forall (a1 : str) (a2 c st z : option str),
    ascii_text a1 = true -> ascii_opt a2 = true -> ascii_opt c = true ->
    let r := Usps.standardize_address_components_local a1 a2 c st z in
    clean_text (address1 r) = true
    /\ clean_text (address2 r) = true
    /\ clean_text (city r) = true
    /\ (state r = [] \/ two_letter_code (state r) = true
        \/ state r = py_upper (py_strip (or_empty st)))
    /\ (zip r = [] \/ five_digits (zip r) = true \/ zip_plus4 (zip r) = true
        \/ (digits_only (zip r) = true
            /\ zip r = filter is_digit (or_empty z))
        \/ (zip r = py_strip (or_empty z)
            /\ filter is_digit (or_empty z) = [])).
Proof.
  intros a1 a2 c st z _ _ _ r. subst r.
  unfold Usps.standardize_address_components_local.
  destruct usps_tables_clean as (Hs & Hd & Hc).
  pose proof (normalizer_fields Usps.SUFFIX_MAP Usps.DIR_MAP Usps.STATE_MAP
                Usps.po_box_line Hs Hd normalize_po_box_clean a1 a2 c st z)
    as H.
  cbv zeta in H. destruct H as (H1 & H2 & H3 & H4 & H5 & _).
  repeat split; auto.
  - rewrite H4. apply standardize_state_shape, Hc.
  - rewrite H5. apply standardize_zip_shape.
Qed.

Lemma C2_elm_street :
  ascii_text (L "456 Elm St Apt 4B") = true
  /\ ascii_opt None = true
  /\ ascii_opt (Some (L "Smallville")) = true
  /\ (let r :=
        Usps.standardize_address_components_local (L "456 Elm St Apt 4B")
          None (Some (L "Smallville")) (Some (L "Illinois"))
          (Some (L "60606-1234")) in
      clean_text (address1 r) = true
      /\ clean_text (address2 r) = true
      /\ clean_text (city r) = true
      /\ (state r = [] \/ two_letter_code (state r) = true
          \/ state r = py_upper (py_strip (or_empty (Some (L "Illinois")))))
      /\ (zip r = [] \/ five_digits (zip r) = true
          \/ zip_plus4 (zip r) = true
          \/ (digits_only (zip r) = true
              /\ zip r = filter is_digit (or_empty (Some (L "60606-1234"))))
          \/ (zip r = py_strip (or_empty (Some (L "60606-1234")))
              /\ filter is_digit (or_empty (Some (L "60606-1234"))) = [])))
  /\ Usps.standardize_address_components_local (L "456 Elm St Apt 4B")
       None (Some (L "Smallville")) (Some (L "Illinois"))
       (Some (L "60606-1234"))
     = MkAddr (L "456 ELM ST") (L "APT 4B") (L "SMALLVILLE") (L "IL")
         (L "60606-1234").
Proof.
  split; [reflexivity|]. split; [reflexivity|]. split; [reflexivity|].
  split; [|vm_compute; reflexivity].
  apply (C2_normalizer_invariant (L "456 Elm St Apt 4B") None
           (Some (L "Smallville")) (Some (L "Illinois"))
           (Some (L "60606-1234"))); reflexivity.
Defined.

(* ------------------------------------------------------------------ *)
(** ** Normalising a second time *)

Lemma filter_fixed : forall (P : ascii -> bool) s,
  forallb P s = true -> filter P s = s.
Proof.
  intros P s. induction s as [|c s IH]; intro H; auto.
  apply over_cons in H as [Hc Hs]. simpl. rewrite Hc, IH; auto.
Qed.

Lemma single_spaced_tail : forall c s,
  single_spaced (c :: s) = true -> single_spaced s = true.
Proof. intros c s H. simpl in H. apply andb_true_iff in H as [_ H]. exact H. Qed.

Lemma collapse_run_spaced : forall s b,
  single_spaced (collapse_run b s) = true
  /\ (b = true -> headed (collapse_run b s)).
Proof.
  induction s as [|c s IH]; intro b; cbn [collapse_run].
  - split; simpl; auto.
  - destruct (is_space c) eqn:E.
    + destruct b.
      * apply IH.
      * split; [|discriminate].
        destruct (IH true) as [H1 H2]. specialize (H2 eq_refl).
        cbn [single_spaced]. rewrite H1.
        change (is_space SP) with true. cbv iota.
        destruct (collapse_run true s) as [|d t]; [reflexivity|].
        simpl in H2. rewrite H2. reflexivity.
    + split.
      * cbn [single_spaced]. rewrite E. apply (IH false).
      * intros _. simpl. exact E.
Qed.

Lemma single_spaced_collapse : forall s,
  single_spaced s = true ->
  collapse_run false s = s /\ (headed s -> collapse_run true s = s).
Proof.
  induction s as [|c s IH]; intro H; [split; auto|].
  pose proof (single_spaced_tail _ _ H) as Ht.
  destruct (IH Ht) as [IH0 IH1].
  cbn [single_spaced] in H. apply andb_true_iff in H as [Hc _].
  cbn [collapse_run]. destruct (is_space c) eqn:E.
  - apply andb_true_iff in Hc as [Hsp Hn]. apply chr_eqb_eq in Hsp. subst c.
    split.
    + f_equal. apply IH1. destruct s as [|d s]; simpl; auto.
      apply negb_true_iff in Hn. exact Hn.
    + intro Hh. simpl in Hh. rewrite Hh in E. discriminate.
  - split; [f_equal; exact IH0 | intros _; f_equal; exact IH0].
Qed.

Lemma single_spaced_lstrip : forall s,
  single_spaced s = true -> single_spaced (lstrip s) = true.
Proof.
  induction s as [|c s IH]; intro H; auto. cbn [lstrip].
  destruct (is_space c); auto. apply IH, (single_spaced_tail _ _ H).
Qed.

Lemma rstrip_head : forall s x t,
  rstrip s = x :: t -> exists s', s = x :: s'.
Proof.
  intros [|c s] x t H; [discriminate|]. cbn [rstrip] in H.
  destruct (rstrip s).
  - destruct (is_space c); [discriminate|]. injection H as <- _. eauto.
  - injection H as <- _. eauto.
Qed.

Lemma single_spaced_rstrip : forall s,
  single_spaced s = true -> single_spaced (rstrip s) = true.
Proof.
  induction s as [|c s IH]; intro H; auto.
  pose proof (IH (single_spaced_tail _ _ H)) as IH'.
  cbn [single_spaced] in H. apply andb_true_iff in H as [Hc _].
  cbn [rstrip]. destruct (rstrip s) as [|x t] eqn:E.
  - destruct (is_space c) eqn:Ec; [reflexivity|].
    cbn [single_spaced]. rewrite Ec. reflexivity.
  - apply rstrip_head in E as Hs. destruct Hs as [s' ->].
    cbn [single_spaced] in *. rewrite IH'.
    destruct (is_space c); [|reflexivity].
    rewrite Hc. reflexivity.
Qed.

Lemma upper_and_cleanup_spaced : forall text,
  single_spaced (upper_and_cleanup text) = true.
Proof.
  intros [t|]; [|reflexivity]. rewrite upper_and_cleanup_some.
  apply collapse_run_spaced.
Qed.

(** Cleaning a cleaned text again only trims it. *)
Lemma upper_and_cleanup_twice : forall text,
  upper_and_cleanup (Some (upper_and_cleanup text))
  = py_strip (upper_and_cleanup text).
Proof.
  intro text. rewrite (upper_and_cleanup_some (upper_and_cleanup text)).
  pose proof (upper_and_cleanup_clean text) as Hc.
  pose proof (upper_and_cleanup_spaced text) as Hs.
  set (c1 := upper_and_cleanup text) in *.
  assert (Hc' : forallb clean_char (py_strip c1) = true)
    by (apply over_strip, Hc).
  assert (Hs' : single_spaced (py_strip c1) = true)
    by (apply single_spaced_rstrip, single_spaced_lstrip, Hs).
  rewrite (py_upper_fixed clean_char _ clean_to_upper Hc').
  rewrite filter_fixed by (apply (over_weaken clean_char); auto; apply clean_kept).
  apply single_spaced_collapse, Hs'.
Qed.

Lemma two_letter_code_fixed : forall STATE_MAP s,
  two_letter_code s = true -> standardize_state STATE_MAP s = s.
Proof.
  intros T s H. unfold two_letter_code in H.
  apply andb_true_iff in H as [Hl Hu].
  assert (Hstrip : py_strip s = s).
  { apply py_strip_no_space. apply (over_weaken is_upper); auto.
    intros c Hc. rewrite (upper_not_space c Hc). reflexivity. }
  assert (Hup : py_upper s = s)
    by (apply (py_upper_fixed is_upper); auto; apply upper_to_upper).
  unfold standardize_state.
  destruct s as [|c s]; [reflexivity|]. cbn [truthy negb]. cbv zeta.
  rewrite Hstrip, Hup, Hl. unfold py_isalpha. cbn [truthy andb].
  rewrite (over_weaken is_upper is_alpha); auto.
  intros x Hx. unfold is_alpha. rewrite Hx. reflexivity.
Qed.

Lemma trimmed_upper_fixed : forall s,
  py_upper (py_strip (py_upper (py_strip s))) = py_upper (py_strip s).
Proof.
  intro s. rewrite py_strip_upper, py_strip_idem, py_upper_idem. reflexivity.
Qed.

Section Again.

Variable STATE_MAP : list (str * str).

Hypothesis state_codes :
  forallb (fun e => two_letter_code (snd e)) STATE_MAP = true.

(** [standardize_state] is idempotent. *)
Lemma standardize_state_idem : forall state,
  standardize_state STATE_MAP (standardize_state STATE_MAP state)
  = standardize_state STATE_MAP state.
Proof.
  intro x.
  destruct (standardize_state_shape STATE_MAP state_codes x) as [H|[H|H]].
  - rewrite H. reflexivity.
  - apply two_letter_code_fixed, H.
  - rewrite H. destruct x as [|c x]; [reflexivity|].
    unfold standardize_state in H. cbn [truthy negb] in H. cbv zeta in H.
    pose proof (trimmed_upper_fixed (c :: x)) as Hfix.
    set (s := py_upper (py_strip (c :: x))) in *. clearbody s.
    unfold standardize_state.
    destruct s as [|d s]; [reflexivity|].
    cbn [truthy negb]. cbv zeta. rewrite Hfix. exact H.
Qed.

End Again.

Lemma filter_lstrip_nil : forall (P : ascii -> bool) s,
  filter P s = [] -> filter P (lstrip s) = [].
Proof.
  intros P s. induction s as [|c s IH]; intro H; auto. cbn [lstrip].
  destruct (is_space c); auto. apply IH. simpl in H.
  destruct (P c); [discriminate|exact H].
Qed.

Lemma filter_rstrip_nil : forall (P : ascii -> bool) s,
  filter P s = [] -> filter P (rstrip s) = [].
Proof.
  intros P s. induction s as [|c s IH]; intro H; auto.
  simpl in H. destruct (P c) eqn:Ec; [discriminate|].
  specialize (IH H). cbn [rstrip]. destruct (rstrip s) as [|x t].
  - destruct (is_space c); auto. simpl. rewrite Ec. reflexivity.
  - cbn [filter]. rewrite Ec. exact IH.
Qed.

Lemma nine_digits_refilter : forall z,
  length z = 9 -> digits_only z = true ->
  filter is_digit (upto 5 z ++ L "-" ++ from 5 z) = z.
Proof.
  intros z Hl Hd.
  do 9 (destruct z as [|? z]; [discriminate|]).
  destruct z; [|discriminate].
  unfold digits_only in Hd. cbn [forallb] in Hd.
  repeat (apply andb_true_iff in Hd as [? Hd]).
  unfold upto, from.
  cbn [firstn skipn app L list_ascii_of_string filter].
  repeat match goal with H : is_digit _ = true |- _ => rewrite H; clear H end.
  reflexivity.
Qed.

(** [standardize_zip] is idempotent. *)
Lemma standardize_zip_idem : forall zip_code,
  standardize_zip (standardize_zip zip_code) = standardize_zip zip_code.
Proof.
  intro x. remember (standardize_zip x) as r eqn:Er.
  unfold standardize_zip in Er.
  destruct (negb (truthy x)); [subst r; reflexivity|]. cbv zeta in Er.
  rewrite re_sub_non_digit in Er.
  pose proof (filter_digits_only x) as Hd.
  set (z := filter is_digit x) in *.
  destruct (Nat.eqb_spec (length z) 9) as [E9|E9].
  - subst r. unfold standardize_zip. rewrite re_sub_non_digit.
    rewrite (nine_digits_refilter z E9 Hd).
    destruct (upto 5 z ++ L "-" ++ from 5 z) eqn:E.
    + destruct (upto 5 z); discriminate.
    + cbn [truthy negb]. rewrite <- E. rewrite E9. reflexivity.
  - destruct (Nat.eqb_spec (length z) 5) as [E5|E5].
    + subst r. unfold standardize_zip. rewrite re_sub_non_digit.
      rewrite (digits_filter_fixed z Hd).
      destruct z; [discriminate|]. cbn [truthy negb].
      rewrite E5. reflexivity.
    + destruct z as [|d z'] eqn:Ez.
      * cbn [truthy] in Er. subst r.
        unfold standardize_zip. rewrite re_sub_non_digit.
        assert (Hf : filter is_digit (py_strip x) = [])
          by (apply filter_rstrip_nil, filter_lstrip_nil; exact Ez).
        rewrite Hf. rewrite py_strip_idem.
        destruct (py_strip x); reflexivity.
      * cbn [truthy] in Er. subst r.
        unfold standardize_zip. cbn [truthy negb].
        rewrite re_sub_non_digit. rewrite (digits_filter_fixed _ Hd).
        destruct (Nat.eqb_spec (length (d :: z')) 9); [contradiction|].
        destruct (Nat.eqb_spec (length (d :: z')) 5); [contradiction|].
        reflexivity.
Qed.

(** A city that starts with punctuation keeps a leading blank after one
    pass and loses it in the next. *)
Lemma C3_second_pass_changes_city :
  let r :=
    Usps.standardize_address_components_local [] None (Some (L ". a")) None
      None in
  city r = L " A"
  /\ city (renormalize Usps.standardize_address_components_local r) = L "A"
  /\ renormalize Usps.standardize_address_components_local r <> r.
Proof. repeat split; vm_compute; try reflexivity; discriminate. Qed.

(** The street line is not stable either: an abbreviation written by the
    first pass ([FALLS] to [FLS]) is read as a unit by the second. *)
Example second_pass_changes_street :
  let r :=
    Usps.standardize_address_components_local (L "12 Niagara Falls") None
      None None None in
  (address1 r, address2 r) = (L "12 NIAGARA FLS", [])
  /\ (address1 (renormalize Usps.standardize_address_components_local r),
      address2 (renormalize Usps.standardize_address_components_local r))
     = (L "12 NIAGARA", L "FL S").
Proof. split; vm_compute; reflexivity. Qed.

(** C3 (as amended).  Feeding a result of the normaliser back in leaves its
    state and zip unchanged and changes its city at most by trimming
    surrounding blanks; street, unit and an untrimmed city need not be
    fixed points. *)
Theorem C3_second_pass :
  forall (a1 : str) (a2 c st z : option str),
    let r := Usps.standardize_address_components_local a1 a2 c st z in
    let r' := renormalize Usps.standardize_address_components_local r in
    state r' = state r
    /\ zip r' = zip r
    /\ city r' = py_strip (city r).
Proof.
  intros a1 a2 c st z r r'. subst r' r. unfold renormalize.
  unfold Usps.standardize_address_components_local.
  destruct usps_tables_clean as (Hs & Hd & Hc).
  pose proof (normalizer_fields Usps.SUFFIX_MAP Usps.DIR_MAP Usps.STATE_MAP
                Usps.po_box_line Hs Hd normalize_po_box_clean) as F.
  cbv zeta in F.
  destruct (F a1 a2 c st z) as (_ & _ & _ & E1 & E2 & E3).
  set (r := standardize_address_components_local Usps.SUFFIX_MAP
              Usps.DIR_MAP Usps.STATE_MAP Usps.po_box_line a1 a2 c st z) in *.
  destruct (F (address1 r) (Some (address2 r)) (Some (city r))
              (Some (state r)) (Some (zip r))) as (_ & _ & _ & G1 & G2 & G3).
  rewrite G1, G2, G3, !or_empty_some. repeat split.
  - rewrite E1. apply standardize_state_idem, Hc.
  - rewrite E2. apply standardize_zip_idem.
  - rewrite E3. apply upper_and_cleanup_twice.
Qed.

(* ------------------------------------------------------------------ *)
(** ** Whole-word substitution and surrounding blanks *)

Lemma space_not_word : forall c, is_space c = true -> is_word c = false.
Proof. intro c; each_char c. Qed.

Lemma starts_with_length : forall w s,
  starts_with w s = true -> length w <= length s.
Proof.
  induction w as [|c w IH]; intros [|d s] H; simpl in *; try lia;
    try discriminate.
  apply andb_true_iff in H as [_ H]. apply IH in H. lia.
Qed.

Lemma run_lit : forall w R (k : cont R) prev s g,
  run (lit w) k prev s g
  = if starts_with w s then k (last_prev prev w) (skipn (length w) s) g
    else None.
Proof.
  unfold lit. induction w as [|c w IH]; intros R k prev s g.
  - reflexivity.
  - cbn [map seqs fold_right]. change (chr c) with (Chr (chr_eqb c)).
    cbn [run]. destruct s as [|d s]; [reflexivity|].
    cbn [starts_with length skipn last_prev].
    destruct (chr_eqb c d) eqn:E; [|reflexivity].
    apply chr_eqb_eq in E. subst d. apply IH.
Qed.

(** A whole-word pattern matches here exactly when the word starts here
    between two word boundaries. *)
Lemma match_here_word : forall w prev s,
  match_here (whole_word w) prev s
  = if at_boundary prev s && starts_with w s
       && at_boundary (last_prev prev w) (skipn (length w) s)
    then Some (length w, [])
    else None.
Proof.
  intros w prev s. unfold match_here, whole_word.
  cbn [seqs fold_right run].
  destruct (at_boundary prev s); [|reflexivity]. rewrite run_lit.
  destruct (starts_with w s) eqn:E; [|reflexivity]. cbn [andb run].
  destruct (at_boundary _ _); [|reflexivity].
  apply starts_with_length in E. rewrite length_skipn.
  replace (length s - (length s - length w)) with (length w) by lia.
  reflexivity.
Qed.

Lemma last_prev_nonempty : forall w p p',
  truthy w = true -> last_prev p w = last_prev p' w.
Proof. intros [|c w] p p' H; [discriminate|reflexivity]. Qed.

Lemma match_here_word_prev : forall w p p' s,
  truthy w = true -> wordb p = wordb p' ->
  match_here (whole_word w) p s = match_here (whole_word w) p' s.
Proof.
  intros w p p' s Hw Hp. rewrite !match_here_word.
  unfold at_boundary at 1 3. rewrite Hp.
  rewrite (last_prev_nonempty w p p' Hw). reflexivity.
Qed.

Lemma sub_word_prev : forall w v s p p' skip,
  truthy w = true -> wordb p = wordb p' ->
  sub_from (whole_word w) v p s skip = sub_from (whole_word w) v p' s skip.
Proof.
  intros w v [|c s] p p' skip Hw Hp; [reflexivity|]. cbn [sub_from].
  destruct skip; [|reflexivity].
  rewrite (match_here_word_prev w p p' (c :: s) Hw Hp). reflexivity.
Qed.

Lemma starts_with_blank : forall w b s,
  blank_free w = true -> is_space b = true -> starts_with w (b :: s) = false.
Proof.
  intros [|c w] b s Hw Hb; [discriminate|].
  unfold blank_free in Hw. cbn [truthy forallb andb] in Hw.
  apply andb_true_iff in Hw as [Hc _]. apply negb_true_iff in Hc.
  cbn [starts_with]. destruct (chr_eqb c b) eqn:E; [|reflexivity].
  apply chr_eqb_eq in E. congruence.
Qed.

Lemma blank_free_truthy : forall w, blank_free w = true -> truthy w = true.
Proof. intros w H. apply andb_true_iff in H as [H _]. exact H. Qed.

(** A blank in front of the subject stays in front. *)
Lemma sub_word_blank_front : forall w v b y,
  blank_free w = true -> is_space b = true ->
  re_sub (whole_word w) v (b :: y) = b :: re_sub (whole_word w) v y.
Proof.
  intros w v b y Hw Hb. unfold re_sub. cbn [sub_from].
  rewrite match_here_word, (starts_with_blank w b y Hw Hb), andb_false_r.
  cbn [andb]. f_equal. apply sub_word_prev.
  - apply blank_free_truthy, Hw.
  - simpl. apply space_not_word, Hb.
Qed.

Lemma starts_with_app_blank : forall w t b,
  blank_free w = true -> is_space b = true ->
  starts_with w (t ++ [b]) = starts_with w t.
Proof.
  intros w t b Hw Hb. apply andb_true_iff in Hw as [_ Hw].
  revert t. induction w as [|c w IH]; intro t; [reflexivity|].
  cbn [forallb] in Hw. apply andb_true_iff in Hw as [Hc Hw].
  destruct t as [|d t]; cbn [app starts_with].
  - apply negb_true_iff in Hc. destruct (chr_eqb c b) eqn:E; [|reflexivity].
    apply chr_eqb_eq in E. congruence.
  - rewrite (IH Hw). reflexivity.
Qed.

Lemma at_boundary_app_blank : forall p t b,
  is_space b = true -> at_boundary p (t ++ [b]) = at_boundary p t.
Proof.
  intros p [|d t] b Hb; [|reflexivity]. unfold at_boundary. simpl.
  rewrite (space_not_word b Hb). reflexivity.
Qed.

Lemma match_here_word_app_blank : forall w p c t b,
  blank_free w = true -> is_space b = true ->
  match_here (whole_word w) p ((c :: t) ++ [b])
  = match_here (whole_word w) p (c :: t).
Proof.
  intros w p c t b Hw Hb. rewrite !match_here_word.
  rewrite (starts_with_app_blank w (c :: t) b Hw Hb).
  destruct (starts_with w (c :: t)) eqn:E;
    [|rewrite !andb_false_r; reflexivity].
  apply starts_with_length in E.
  rewrite skipn_app. replace (length w - length (c :: t)) with 0 by lia.
  cbn [skipn]. rewrite !at_boundary_app_blank by exact Hb. reflexivity.
Qed.

(** A blank at the end of the subject stays at the end. *)
Lemma sub_word_blank_back : forall w v b y p skip,
  blank_free w = true -> is_space b = true -> skip <= length y ->
  sub_from (whole_word w) v p (y ++ [b]) skip
  = sub_from (whole_word w) v p y skip ++ [b].
Proof.
  intros w v b y. induction y as [|c y IH]; intros p skip Hw Hb Hs.
  - cbn [length] in Hs. replace skip with 0 by lia. cbn [app sub_from].
    rewrite match_here_word, (starts_with_blank w b [] Hw Hb), andb_false_r.
    reflexivity.
  - destruct skip as [|n].
    + change ((c :: y) ++ [b]) with (c :: (y ++ [b])) at 1.
      cbn [sub_from].
      change (c :: (y ++ [b])) with ((c :: y) ++ [b]).
      rewrite (match_here_word_app_blank w p c y b Hw Hb).
      destruct (match_here (whole_word w) p (c :: y)) as [[[|n] g]|] eqn:E.
      * rewrite IH by (auto; lia). reflexivity.
      * rewrite match_here_word in E.
        destruct (_ && _) eqn:E2 in E; [|discriminate].
        injection E as E _.
        apply andb_true_iff in E2 as [E2 _].
        apply andb_true_iff in E2 as [_ E2].
        apply starts_with_length in E2. cbn [length] in E2.
        rewrite IH by (auto; lia). rewrite app_assoc. reflexivity.
      * rewrite IH by (auto; lia). reflexivity.
    + cbn [app sub_from]. cbn [length] in Hs. apply IH; auto. lia.
Qed.

Lemma re_sub_word_blank_back : forall w v b y,
  blank_free w = true -> is_space b = true ->
  re_sub (whole_word w) v (y ++ [b]) = re_sub (whole_word w) v y ++ [b].
Proof.
  intros w v b y Hw Hb. unfold re_sub.
  apply sub_word_blank_back; auto. lia.
Qed.

Lemma apply_table_blank_front : forall t b y,
  keys_blank_free t = true -> is_space b = true ->
  apply_table t (b :: y) = b :: apply_table t y.
Proof.
  unfold apply_table, keys_blank_free.
  induction t as [|e t IH]; intros b y Ht Hb; [reflexivity|].
  cbn [forallb] in Ht. apply andb_true_iff in Ht as [He Ht].
  cbn [fold_left]. rewrite (sub_word_blank_front _ _ _ _ He Hb).
  apply IH; auto.
Qed.

Lemma apply_table_blank_back : forall t b y,
  keys_blank_free t = true -> is_space b = true ->
  apply_table t (y ++ [b]) = apply_table t y ++ [b].
Proof.
  unfold apply_table, keys_blank_free.
  induction t as [|e t IH]; intros b y Ht Hb; [reflexivity|].
  cbn [forallb] in Ht. apply andb_true_iff in Ht as [He Ht].
  cbn [fold_left]. rewrite (re_sub_word_blank_back _ _ _ _ He Hb).
  apply IH; auto.
Qed.

Lemma lstrip_collapse_run : forall s b,
  lstrip (collapse_run b s) = collapse_run true s.
Proof.
  induction s as [|c s IH]; intro b; [reflexivity|]. cbn [collapse_run].
  destruct (is_space c) eqn:E.
  - destruct b; [apply IH|]. cbn [lstrip]. change (is_space SP) with true.
    cbv iota. apply IH.
  - cbn [lstrip]. rewrite E. reflexivity.
Qed.

(** [squeeze] drops leading blanks, folds the others and drops a final
    blank. *)
Lemma squeeze_collapse : forall s, squeeze s = rstrip (collapse_run true s).
Proof.
  intro s. unfold squeeze, py_strip. rewrite re_sub_multispace.
  unfold collapse. rewrite lstrip_collapse_run. reflexivity.
Qed.

Lemma squeeze_blank_front : forall b s,
  is_space b = true -> squeeze (b :: s) = squeeze s.
Proof.
  intros b s Hb. rewrite !squeeze_collapse. cbn [collapse_run].
  rewrite Hb. reflexivity.
Qed.

Lemma rstrip_cons : forall c x y, rstrip x = rstrip y ->
  rstrip (c :: x) = rstrip (c :: y).
Proof. intros c x y H. cbn [rstrip]. rewrite H. reflexivity. Qed.

Lemma rstrip_collapse_blank_back : forall b s f,
  is_space b = true ->
  rstrip (collapse_run f (s ++ [b])) = rstrip (collapse_run f s).
Proof.
  intros b s f Hb. revert f. induction s as [|c s IH]; intro f.
  - cbn [app collapse_run]. rewrite Hb. destruct f; reflexivity.
  - cbn [app collapse_run]. destruct (is_space c).
    + destruct f; [apply IH|]. apply rstrip_cons, IH.
    + apply rstrip_cons, IH.
Qed.

Lemma squeeze_blank_back : forall b s,
  is_space b = true -> squeeze (s ++ [b]) = squeeze s.
Proof.
  intros b s Hb. rewrite !squeeze_collapse.
  apply rstrip_collapse_blank_back, Hb.
Qed.

Lemma rstrip_split : forall s,
  exists trail, s = rstrip s ++ trail /\ forallb is_space trail = true.
Proof.
  induction s as [|c s (trail & Hs & Ht)].
  - exists []. auto.
  - cbn [rstrip]. destruct (rstrip s) as [|x t] eqn:E.
    + destruct (is_space c) eqn:Ec.
      * exists (c :: trail). simpl in Hs. subst s. simpl.
        rewrite Ec, Ht. auto.
      * exists trail. simpl in *. subst s. auto.
    + exists trail. rewrite Hs at 1. auto.
Qed.

Section Blanks.

Variable SUFFIX_MAP DIR_MAP : list (str * str).

Hypothesis suffix_keys : keys_blank_free SUFFIX_MAP = true.
Hypothesis dir_keys : keys_blank_free DIR_MAP = true.

Lemma passes_lstrip : forall s,
  squeeze (passes SUFFIX_MAP DIR_MAP s)
  = squeeze (passes SUFFIX_MAP DIR_MAP (lstrip s)).
Proof.
  unfold passes. induction s as [|c s IH]; [reflexivity|]. cbn [lstrip].
  destruct (is_space c) eqn:E; [|reflexivity].
  rewrite (apply_table_blank_front DIR_MAP c s dir_keys E).
  rewrite (apply_table_blank_front SUFFIX_MAP c _ suffix_keys E).
  rewrite (squeeze_blank_front c _ E). exact IH.
Qed.

Lemma passes_trail : forall trail s,
  forallb is_space trail = true ->
  squeeze (passes SUFFIX_MAP DIR_MAP (s ++ trail))
  = squeeze (passes SUFFIX_MAP DIR_MAP s).
Proof.
  unfold passes. induction trail as [|b trail IH]; intros s H.
  - rewrite app_nil_r. reflexivity.
  - apply andb_true_iff in H as [Hb H].
    change (s ++ b :: trail) with (s ++ [b] ++ trail). rewrite app_assoc.
    rewrite (IH (s ++ [b]) H).
    rewrite (apply_table_blank_back DIR_MAP b s dir_keys Hb).
    rewrite (apply_table_blank_back SUFFIX_MAP b _ suffix_keys Hb).
    apply squeeze_blank_back, Hb.
Qed.

Lemma passes_strip : forall s,
  squeeze (passes SUFFIX_MAP DIR_MAP s)
  = squeeze (passes SUFFIX_MAP DIR_MAP (py_strip s)).
Proof.
  intro s. rewrite passes_lstrip. unfold py_strip.
  destruct (rstrip_split (lstrip s)) as (trail & Hs & Ht).
  rewrite Hs at 1. apply passes_trail, Ht.
Qed.

Lemma passes_nil : passes SUFFIX_MAP DIR_MAP [] = [].
Proof.
  unfold passes, apply_table.
  assert (H : forall t, fold_left
                (fun s (e : str * str) => re_sub (whole_word (fst e)) (snd e) s)
                t [] = []) by (induction t; auto).
  rewrite !H. reflexivity.
Qed.

(** Trimming the street line first does not change what
    [replace_suffixes_and_dirs] leaves after the final squeeze. *)
Lemma replace_suffixes_and_dirs_strip : forall s,
  squeeze (replace_suffixes_and_dirs SUFFIX_MAP DIR_MAP (py_strip s))
  = squeeze (replace_suffixes_and_dirs SUFFIX_MAP DIR_MAP s).
Proof.
  intro s. unfold replace_suffixes_and_dirs. cbv zeta.
  fold (passes SUFFIX_MAP DIR_MAP s).
  fold (passes SUFFIX_MAP DIR_MAP (py_strip s)).
  destruct s as [|c s]; [reflexivity|]. cbn [truthy negb].
  destruct (py_strip (c :: s)) as [|d t] eqn:E.
  - cbn [truthy negb]. rewrite passes_strip, E, passes_nil. reflexivity.
  - cbn [truthy negb]. rewrite <- E. f_equal. symmetry. apply passes_strip.
Qed.

End Blanks.

(** ** The PO Box branch of the two copies *)

Lemma clean_no_period : forall c,
  clean_char c = true -> negb (chr_eqb "."%char c) = true.
Proof. intro c; each_char c. Qed.

Lemma replace_char_absent : forall d new s,
  forallb (fun c => negb (chr_eqb d c)) s = true ->
  py_replace [d] new s = s.
Proof.
  intros d new s. unfold py_replace. induction s as [|c s IH]; intro H; auto.
  apply over_cons in H as [Hc Hs]. apply negb_true_iff in Hc.
  cbn [replace_from starts_with]. rewrite Hc. cbn [andb].
  f_equal. apply IH, Hs.
Qed.

Lemma next_not_blank : forall s,
  match s with [] => true | d :: _ => negb (is_space d) end = true
  <-> headed s.
Proof.
  intros [|d s]; simpl; [tauto|]. rewrite negb_true_iff. tauto.
Qed.

Lemma spaced_app_end : forall body x z,
  single_spaced (body ++ [x]) = true -> is_space x = false ->
  single_spaced z = true -> single_spaced (body ++ x :: z) = true.
Proof.
  induction body as [|c body IH]; intros x z H Hx Hz.
  - cbn [app single_spaced]. rewrite Hx, Hz. reflexivity.
  - cbn [app single_spaced] in *. apply andb_true_iff in H as [Hc H].
    rewrite (IH x z H Hx Hz), andb_true_r.
    destruct (is_space c); [|reflexivity].
    destruct body; exact Hc.
Qed.

Section Replacement.

Variable r : re.
Variable body : str.
Variable x : ascii.

Hypothesis last_not_blank : is_space x = false.
Hypothesis repl_spaced : single_spaced (body ++ [x]) = true.
Hypothesis repl_headed : headed (body ++ [x]).

Lemma sub_headed : forall s prev,
  headed s -> headed (sub_from r (body ++ [x]) prev s 0).
Proof.
  intros [|c s] prev H; [exact I|]. cbn [sub_from].
  destruct (match_here r prev (c :: s)) as [[[|n] g]|]; try exact H.
  destruct body; exact repl_headed.
Qed.

(** Substituting a single-spaced text that ends in a non-blank keeps the
    subject single-spaced. *)
Lemma sub_spaced : forall s prev skip,
  single_spaced s = true ->
  single_spaced (sub_from r (body ++ [x]) prev s skip) = true.
Proof.
  induction s as [|c s IH]; intros prev skip H; [reflexivity|].
  pose proof (single_spaced_tail _ _ H) as Ht.
  cbn [sub_from]. destruct skip as [|n]; [|apply IH, Ht].
  assert (Hkeep : single_spaced (c :: sub_from r (body ++ [x]) (Some c) s 0)
                  = true).
  { cbn [single_spaced] in *. apply andb_true_iff in H as [Hc _].
    rewrite (IH (Some c) 0 Ht), andb_true_r.
    destruct (is_space c); [|reflexivity].
    apply andb_true_iff in Hc as [Hsp Hn]. rewrite Hsp. cbn [andb].
    apply next_not_blank. apply sub_headed. apply next_not_blank, Hn. }
  destruct (match_here r prev (c :: s)) as [[[|n] g]|]; try exact Hkeep.
  rewrite <- app_assoc. apply spaced_app_end; auto.
Qed.

End Replacement.

Lemma po_box_inline_spaced : forall a,
  clean_text a = true -> single_spaced a = true ->
  single_spaced (Plain.po_box_line a) = true.
Proof.
  intros a Hc Hs. unfold Plain.po_box_line.
  change (L ".") with ["."%char].
  rewrite replace_char_absent.
  - apply (sub_spaced POBOX_RE (L "PO BO") "X"%char);
      try reflexivity; exact Hs.
  - apply (over_weaken clean_char); [apply clean_no_period|].
    apply over_re_sub; auto.
Qed.

Lemma spaced_squeeze : forall s,
  single_spaced s = true -> squeeze s = py_strip s.
Proof.
  intros s H. unfold squeeze. rewrite re_sub_multispace. unfold collapse.
  rewrite (proj1 (single_spaced_collapse s H)). reflexivity.
Qed.

(** After [replace_suffixes_and_dirs] and the final squeeze, the PO Box
    line of the USPS copy ([normalize_po_box]) and that of the other copies
    (substitution and removal of periods only) are the same. *)
Lemma po_box_lines_agree : forall SUFFIX_MAP DIR_MAP a,
  keys_blank_free SUFFIX_MAP = true -> keys_blank_free DIR_MAP = true ->
  clean_text a = true -> single_spaced a = true ->
  squeeze (replace_suffixes_and_dirs SUFFIX_MAP DIR_MAP (Usps.po_box_line a))
  = squeeze (replace_suffixes_and_dirs SUFFIX_MAP DIR_MAP
               (Plain.po_box_line a)).
Proof.
  intros SUF DIR a Hk1 Hk2 Hc Hs.
  destruct a as [|c a]; [reflexivity|].
  unfold Usps.po_box_line, normalize_po_box. cbn [truthy negb]. cbv zeta.
  fold (Plain.po_box_line (c :: a)).
  rewrite (spaced_squeeze _ (po_box_inline_spaced _ Hc Hs)).
  apply replace_suffixes_and_dirs_strip; assumption.
Qed.

(** With common tables the copies differ in no field. *)
Lemma copies_agree_on_tables : forall SUFFIX_MAP DIR_MAP STATE_MAP,
  keys_blank_free SUFFIX_MAP = true -> keys_blank_free DIR_MAP = true ->
  forall (a1 : str) (a2 c st z : option str),
    standardize_address_components_local SUFFIX_MAP DIR_MAP STATE_MAP
      Plain.po_box_line a1 a2 c st z
    = standardize_address_components_local SUFFIX_MAP DIR_MAP STATE_MAP
        Usps.po_box_line a1 a2 c st z.
Proof.
  intros SUF DIR ST Hk1 Hk2 a1 a2 c st z.
  unfold standardize_address_components_local.
  destruct (is_some (re_search POBOX_RE (upper_and_cleanup (Some a1)))) eqn:E;
    [|reflexivity].
  cbv zeta. f_equal. symmetry. apply po_box_lines_agree; auto.
  - apply upper_and_cleanup_clean.
  - apply upper_and_cleanup_spaced.
Qed.

Lemma table_keys_blank_free :
  keys_blank_free Plain.SUFFIX_MAP = true
  /\ keys_blank_free Plain.DIR_MAP = true
  /\ keys_blank_free Usps.SUFFIX_MAP = true
  /\ keys_blank_free Usps.DIR_MAP = true.
Proof. repeat split; vm_compute; reflexivity. Qed.

(* ------------------------------------------------------------------ *)
(** ** The two copies of the normaliser *)

(** [HIGHWAY] is in the suffix table of one copy only. *)
Lemma C4_copies_differ_on_highway :
  address1 (Plain.standardize_address_components_local (L "12 Oak Highway")
              None None None None) = L "12 OAK HIGHWAY"
  /\ address1 (Usps.standardize_address_components_local
                 (L "12 Oak Highway") None None None None) = L "12 OAK HWY"
  /\ Plain.standardize_address_components_local (L "12 Oak Highway") None
       None None None
     <> Usps.standardize_address_components_local (L "12 Oak Highway") None
          None None None.
Proof. repeat split; vm_compute; try reflexivity; discriminate. Qed.

(** The tables the two files share. *)
Lemma shared_tables :
  Plain.STATE_MAP = Usps.STATE_MAP /\ Plain.DIR_MAP = Usps.DIR_MAP.
Proof. split; reflexivity. Qed.

Lemma suffix_tables_differ : length Plain.SUFFIX_MAP = 10
                             /\ length Usps.SUFFIX_MAP = 126.
Proof. split; reflexivity. Qed.

Lemma plain_tables_clean :
  forallb (fun e => clean_text (snd e)) Plain.SUFFIX_MAP = true
  /\ forallb (fun e => clean_text (snd e)) Plain.DIR_MAP = true.
Proof. split; vm_compute; reflexivity. Qed.

(** The column parser appended to the USPS file has a third, shorter state
    table: as a module that file would resolve [STATE_MAP] to it. *)
Example parser_state_table :
  Usps.standardize_state (L "Ohio") = L "OH"
  /\ Parser.standardize_state (L "Ohio") = L "OHIO".
Proof. split; vm_compute; reflexivity. Qed.

(** C4 (as amended).  The copies of [address_standardizer.py] and
    [address_standardizer_with_usps.py] (lines 56-238) are equal up to their
    [SUFFIX_MAP]: for every input 5-tuple they return the same city, state
    and zip, and each copy, run with the suffix table of the other, returns
    the record the other returns ([DIR_MAP] and [STATE_MAP] are equal and the
    two PO Box branches come to the same).  With their own [SUFFIX_MAP]
    (10 against 126 entries) street and unit can differ. *)
Theorem C4_copies_agree :
  (forall (a1 : str) (a2 c st z : option str),
     let p := Plain.standardize_address_components_local a1 a2 c st z in
     let u := Usps.standardize_address_components_local a1 a2 c st z in
     city p = city u /\ state p = state u /\ zip p = zip u)
  /\ (forall (a1 : str) (a2 c st z : option str),
        standardize_address_components_local Usps.SUFFIX_MAP Plain.DIR_MAP
          Plain.STATE_MAP Plain.po_box_line a1 a2 c st z
        = Usps.standardize_address_components_local a1 a2 c st z)
  /\ (forall (a1 : str) (a2 c st z : option str),
        standardize_address_components_local Plain.SUFFIX_MAP Usps.DIR_MAP
          Usps.STATE_MAP Usps.po_box_line a1 a2 c st z
        = Plain.standardize_address_components_local a1 a2 c st z).
Proof.
  destruct shared_tables as [Est Edir].
  destruct table_keys_blank_free as (K1 & K2 & K3 & K4).
  split; [|split].
  - intros a1 a2 c st z p u. subst p u.
    unfold Plain.standardize_address_components_local,
      Usps.standardize_address_components_local.
    destruct usps_tables_clean as (Hs & Hd & _).
    destruct plain_tables_clean as (Hs' & Hd').
    pose proof (normalizer_fields Usps.SUFFIX_MAP Usps.DIR_MAP Usps.STATE_MAP
                  Usps.po_box_line Hs Hd normalize_po_box_clean a1 a2 c st z)
      as U.
    pose proof (normalizer_fields Plain.SUFFIX_MAP Plain.DIR_MAP
                  Plain.STATE_MAP Plain.po_box_line Hs' Hd'
                  po_box_inline_clean a1 a2 c st z) as P.
    cbv zeta in U, P.
    destruct U as (_ & _ & _ & U1 & U2 & U3).
    destruct P as (_ & _ & _ & P1 & P2 & P3).
    rewrite U1, U2, U3, P1, P2, P3, Est. auto.
  - intros a1 a2 c st z.
    unfold Usps.standardize_address_components_local.
    rewrite Est, Edir. apply copies_agree_on_tables; assumption.
  - intros a1 a2 c st z.
    unfold Plain.standardize_address_components_local.
    rewrite <- Est, <- Edir. symmetry.
    apply copies_agree_on_tables; assumption.
Qed.

(* ------------------------------------------------------------------ *)
(** * Further properties of the engine *)

(** ** Trimmed, single-spaced results *)

Lemma squeeze_tidy : forall s, tidy (squeeze s).
Proof.
  intro s. rewrite squeeze_collapse.
  destruct (collapse_run_spaced s true) as [Hs Hh]. specialize (Hh eq_refl).
  split.
  - unfold py_strip. rewrite (headed_lstrip _ (rstrip_headed _ Hh)).
    apply rstrip_idem.
  - apply single_spaced_rstrip, Hs.
Qed.

Lemma strip_tidy : forall s, single_spaced s = true -> tidy (py_strip s).
Proof.
  intros s H. split; [apply py_strip_idem|].
  apply single_spaced_rstrip, single_spaced_lstrip, H.
Qed.

Lemma single_spaced_firstn : forall n s,
  single_spaced s = true -> single_spaced (firstn n s) = true.
Proof.
  induction n as [|n IH]; intros [|c s] H; auto.
  cbn [firstn single_spaced] in *. apply andb_true_iff in H as [Hc Hs].
  rewrite (IH s Hs), andb_true_r.
  destruct (is_space c); [|reflexivity].
  apply andb_true_iff in Hc as [Hsp Hn]. rewrite Hsp. cbn [andb].
  destruct n; [reflexivity|]. destruct s; auto.
Qed.

Lemma no_blank_spaced : forall s,
  forallb (fun c => negb (is_space c)) s = true -> single_spaced s = true.
Proof.
  induction s as [|c s IH]; intro H; auto.
  apply over_cons in H as [Hc Hs]. apply negb_true_iff in Hc.
  cbn [single_spaced]. rewrite Hc. apply IH, Hs.
Qed.

Lemma rstrip_app_fixed : forall x y,
  truthy y = true -> rstrip y = y -> rstrip (x ++ y) = x ++ y.
Proof.
  induction x as [|c x IH]; intros y Hy H; [exact H|].
  cbn [app rstrip]. rewrite (IH y Hy H).
  destruct (x ++ y) eqn:E; [|reflexivity].
  destruct x; simpl in E; [rewrite E in Hy|]; discriminate.
Qed.

Lemma value_upper_not_space : forall c,
  unit_value_upper c = true -> negb (is_space c) = true.
Proof. intro c; each_char c. Qed.

Lemma no_blank_prefix_spaced : forall x z,
  forallb (fun c => negb (is_space c)) x = true ->
  single_spaced (x ++ z) = single_spaced z.
Proof.
  induction x as [|c x IH]; intros z H; auto.
  apply over_cons in H as [Hc Hx]. apply negb_true_iff in Hc.
  cbn [app single_spaced]. rewrite Hc. apply IH, Hx.
Qed.

Lemma returned_designators_no_blank : forall d,
  In d RETURNED_DESIGNATORS ->
  truthy d = true /\ forallb (fun c => negb (is_space c)) d = true.
Proof.
  intros d Hd. unfold RETURNED_DESIGNATORS in Hd. cbn [map In] in Hd.
  repeat (destruct Hd as [<-|Hd]; [split; reflexivity|]). destruct Hd.
Qed.

(** A returned unit is trimmed and single-spaced. *)
Lemma unit_tidy : forall d v,
  In d RETURNED_DESIGNATORS -> v <> [] ->
  forallb unit_value_upper v = true -> tidy (d ++ [SP] ++ v).
Proof.
  intros d v Hd Hv Hp.
  destruct (returned_designators_no_blank d Hd) as [Hdt Hdn].
  assert (Hnb : forallb (fun c => negb (is_space c)) v = true)
    by (apply (over_weaken unit_value_upper); auto;
        apply value_upper_not_space).
  assert (Hr : rstrip (SP :: v) = SP :: v).
  { cbn [rstrip]. rewrite (rstrip_no_space v Hnb).
    destruct v; [contradiction|reflexivity]. }
  split.
  - unfold py_strip. rewrite headed_lstrip.
    + apply rstrip_app_fixed; auto.
    + destruct d as [|c d]; [discriminate|]. simpl.
      apply over_cons in Hdn as [Hc _]. apply negb_true_iff, Hc.
  - cbn [app]. rewrite (no_blank_prefix_spaced d _ Hdn).
    cbn [single_spaced]. rewrite (no_blank_spaced v Hnb).
    destruct v as [|c v]; [contradiction|].
    apply over_cons in Hnb as [Hc _]. rewrite Hc. reflexivity.
Qed.

(** X16.  The street line [extract_unit] returns is trimmed and
    single-spaced whatever the input, and so is the unit when there is one. *)
Theorem extract_unit_tidy : forall address : str,
  tidy (fst (extract_unit address))
  /\ match snd (extract_unit address) with
     | Some u => tidy u
     | None => True
     end.
Proof.
  intro address. destruct (extract_unit address) as [street unit] eqn:E.
  cbn [fst snd]. split.
  - unfold extract_unit in E.
    destruct (negb (truthy address)).
    { injection E as <- _. split; reflexivity. }
    cbv zeta in E.
    pose proof (squeeze_tidy (py_replace (L ",") (L " ") address)) as Ha.
    destruct (is_some (re_search POBOX_RE _)).
    { injection E as <- _. exact Ha. }
    destruct (re_search trailing_unit_re _) as [m|].
    { injection E as <- _. apply strip_tidy, single_spaced_firstn, Ha. }
    destruct (re_search mid_unit_re _) as [m2|].
    { injection E as <- _. apply squeeze_tidy. }
    injection E as <- _. exact Ha.
  - destruct unit as [u|]; [|exact I].
    apply returned_unit_shape in E as (d & v & -> & Hd & Hv & Hp).
    apply unit_tidy; assumption.
Qed.

(** X11.  Whatever the five inputs and whatever the tables, the street and
    unit lines of the normaliser's result are trimmed and single-spaced (the
    city is not re-trimmed and can keep a leading blank). *)
Theorem normalizer_lines_tidy :
  forall (SUFFIX_MAP DIR_MAP STATE_MAP : list (str * str))
         (po_box_line : str -> str)
         (a1 : str) (a2 c st z : option str),
    let r := standardize_address_components_local SUFFIX_MAP DIR_MAP
               STATE_MAP po_box_line a1 a2 c st z in
    tidy (address1 r) /\ tidy (address2 r).
Proof.
  intros SUF DIR ST po a1 a2 c st z r. subst r.
  unfold standardize_address_components_local.
  destruct (if is_some (re_search POBOX_RE (upper_and_cleanup (Some a1)))
            then _ else _) as [x1 x2].
  cbv zeta. cbn [address1 address2]. split; apply squeeze_tidy.
Qed.

(* ------------------------------------------------------------------ *)
(** ** More on the ZIP and state standardizers *)

Lemma standardize_zip_digits : forall z,
  filter is_digit (standardize_zip z) = filter is_digit z.
Proof.
  intro x. unfold standardize_zip.
  destruct x as [|c x0]; [reflexivity|]. cbn [truthy negb]. cbv zeta.
  set (x := c :: x0). rewrite re_sub_non_digit.
  pose proof (filter_digits_only x) as Hd.
  destruct (Nat.eqb_spec (length (filter is_digit x)) 9) as [E9|E9].
  - apply nine_digits_refilter; assumption.
  - destruct (Nat.eqb_spec (length (filter is_digit x)) 5) as [E5|E5].
    + apply digits_filter_fixed, Hd.
    + destruct (filter is_digit x) as [|d z] eqn:Ez.
      * cbn [truthy]. apply filter_rstrip_nil, filter_lstrip_nil, Ez.
      * cbn [truthy]. rewrite <- Ez. apply digits_filter_fixed.
        rewrite Ez. exact Hd.
Qed.

(** X10.  [standardize_zip] neither drops nor adds a digit: the digits of
    its result are the digits of its input, in order. *)
Theorem standardize_zip_keeps_digits : forall zip_code : str,
  filter is_digit (standardize_zip zip_code) = filter is_digit zip_code.
Proof. exact standardize_zip_digits. Qed.

Lemma to_upper_not_lower : forall c, is_lower (to_upper c) = false.
Proof. intro c; each_char c. Qed.

Lemma upper_not_lower : forall c, is_upper c = true -> is_lower c = false.
Proof. intro c; each_char c. Qed.

Lemma py_upper_no_lower : forall s,
  forallb (fun c => negb (is_lower c)) (py_upper s) = true.
Proof.
  induction s as [|c s IH]; auto. cbn [py_upper map forallb].
  rewrite to_upper_not_lower. exact IH.
Qed.

Section StateOutput.

Variable STATE_MAP : list (str * str).

Hypothesis state_codes :
  forallb (fun e => two_letter_code (snd e)) STATE_MAP = true.

(** The result of [standardize_state] holds no lower-case letter and no
    surrounding blank. *)
Lemma standardize_state_upper_trimmed : forall state : str,
  forallb (fun c => negb (is_lower c)) (standardize_state STATE_MAP state)
    = true
  /\ py_strip (standardize_state STATE_MAP state)
     = standardize_state STATE_MAP state.
Proof.
  intro x.
  destruct (standardize_state_shape STATE_MAP state_codes x) as [H|[H|H]].
  - rewrite H. split; reflexivity.
  - unfold two_letter_code in H. apply andb_true_iff in H as [_ H]. split.
    + apply (over_weaken is_upper); auto.
      intros c Hc. rewrite (upper_not_lower c Hc). reflexivity.
    + apply py_strip_no_space. apply (over_weaken is_upper); auto.
      intros c Hc. rewrite (upper_not_space c Hc). reflexivity.
  - rewrite H. split.
    + apply py_upper_no_lower.
    + rewrite py_strip_upper, py_strip_idem. reflexivity.
Qed.

(** The answer depends on the input only through its trimmed, upper-cased
    form. *)
Lemma standardize_state_of_trimmed : forall state : str,
  truthy (py_upper (py_strip state)) = true ->
  standardize_state STATE_MAP state
  = standardize_state STATE_MAP (py_upper (py_strip state)).
Proof.
  intros x H. pose proof (trimmed_upper_fixed x) as Hfix.
  unfold standardize_state.
  destruct x as [|c x]; [discriminate|]. cbn [truthy negb].
  rewrite H. cbn [negb]. cbv zeta. rewrite Hfix. reflexivity.
Qed.

End StateOutput.

(** X9.  Whatever the input, the state [standardize_state] returns holds no
    lower-case letter and no surrounding blank. *)
Theorem state_upper_and_trimmed : forall state : str,
  forallb (fun c => negb (is_lower c)) (Usps.standardize_state state) = true
  /\ py_strip (Usps.standardize_state state) = Usps.standardize_state state.
Proof.
  intro state. apply standardize_state_upper_trimmed.
  apply usps_tables_clean.
Qed.

Lemma state_keys_translate :
  forallb (fun e => str_eqb (Usps.standardize_state (fst e)) (snd e)
                    && truthy (fst e)
                    && str_eqb (Usps.standardize_state (fst e ++ L " STATE"))
                         (snd e))
    Usps.STATE_MAP = true.
Proof. vm_compute. reflexivity. Qed.

(** X7.  Every full name of the State Table is translated to its code,
    whatever the case of its letters and the blanks around it. *)
Theorem state_names_translate : forall (state k v : str),
  In (k, v) Usps.STATE_MAP ->
  py_upper (py_strip state) = k ->
  Usps.standardize_state state = v.
Proof.
  intros s k v Hin Hk.
  pose proof state_keys_translate as H.
  rewrite forallb_forall in H. specialize (H (k, v) Hin). cbn [fst snd] in H.
  apply andb_true_iff in H as [H _]. apply andb_true_iff in H as [H Ht].
  apply str_eqb_eq in H. rewrite <- H.
  unfold Usps.standardize_state. subst k.
  apply standardize_state_of_trimmed. exact Ht.
Qed.

Lemma state_names_translate_witness :
  In (L "NEW YORK", L "NY") Usps.STATE_MAP
  /\ Usps.standardize_state (L "  new York ") = L "NY".
Proof.
  assert (H : In (L "NEW YORK", L "NY") Usps.STATE_MAP)
    by (vm_compute; tauto).
  split; [exact H|].
  apply (state_names_translate (L "  new York ") (L "NEW YORK") (L "NY") H).
  vm_compute. reflexivity.
Defined.

(** X8.  A full name followed by the word STATE is translated too
    ("Washington State" gives [WA]). *)
Theorem state_names_with_suffix : forall (state k v : str),
  In (k, v) Usps.STATE_MAP ->
  py_upper (py_strip state) = k ++ L " STATE" ->
  Usps.standardize_state state = v.
Proof.
  intros s k v Hin Hk.
  pose proof state_keys_translate as H.
  rewrite forallb_forall in H. specialize (H (k, v) Hin). cbn [fst snd] in H.
  apply andb_true_iff in H as [_ H].
  apply str_eqb_eq in H. rewrite <- H, <- Hk.
  unfold Usps.standardize_state.
  apply standardize_state_of_trimmed. rewrite Hk.
  destruct k; reflexivity.
Qed.

Lemma state_names_with_suffix_witness :
  In (L "WASHINGTON", L "WA") Usps.STATE_MAP
  /\ Usps.standardize_state (L "Washington State") = L "WA".
Proof.
  assert (H : In (L "WASHINGTON", L "WA") Usps.STATE_MAP)
    by (vm_compute; tauto).
  split; [exact H|].
  apply (state_names_with_suffix (L "Washington State") (L "WASHINGTON")
           (L "WA") H).
  vm_compute. reflexivity.
Defined.

(* ------------------------------------------------------------------ *)
(** ** The USPS request *)

Lemma replace_one_char : forall d new s,
  py_replace [d] new s
  = flat_map (fun c => if chr_eqb d c then new else [c]) s.
Proof.
  intros d new s. unfold py_replace. induction s as [|c s IH]; auto.
  cbn [replace_from starts_with flat_map length Nat.sub].
  rewrite andb_true_r. destruct (chr_eqb d c); rewrite IH; reflexivity.
Qed.

Lemma flat_map_twice : forall (f g : ascii -> str) s,
  flat_map g (flat_map f s) = flat_map (fun c => flat_map g (f c)) s.
Proof.
  intros f g s. induction s as [|c s IH]; auto.
  cbn [flat_map]. rewrite flat_map_app, IH. reflexivity.
Qed.

(** The five replacements of [esc], one after the other, come to one pass
    that rewrites each character on its own: an ampersand written by an
    earlier step is never escaped again. *)
Lemma esc_by_char : forall s, esc (Some s) = flat_map esc_char s.
Proof.
  intro s. unfold esc.
  change (L "'") with ["'"%char]. change (L ">") with [">"%char].
  change (L "<") with ["<"%char]. change (L "&") with ["&"%char].
  rewrite !replace_one_char, !flat_map_twice.
  apply flat_map_ext. intro c. each_char c.
Qed.

Lemma unesc_char : forall c rest,
  unesc_from (esc_char c ++ rest) 0 = c :: unesc_from rest 0.
Proof. intros c rest; each_char c. Qed.

Lemma unesc_esc : forall s, unesc_from (esc (Some s)) 0 = s.
Proof.
  intro s. rewrite esc_by_char. induction s as [|c s IH]; auto.
  cbn [flat_map]. rewrite unesc_char, IH. reflexivity.
Qed.

(** X2.  [esc] loses nothing: two texts with the same escaped form are the
    same text. *)
Theorem esc_injective : forall a b : str,
  esc (Some a) = esc (Some b) -> a = b.
Proof.
  intros a b H. rewrite <- (unesc_esc a), <- (unesc_esc b), H. reflexivity.
Qed.

Lemma esc_injective_witness :
  esc (Some (L "R&D <1>")) = L "R&amp;D &lt;1&gt;"
  /\ L "R&D <1>" = unesc_from (L "R&amp;D &lt;1&gt;") 0.
Proof.
  split; [vm_compute; reflexivity|].
  apply (esc_injective (L "R&D <1>") (unesc_from (L "R&amp;D &lt;1&gt;") 0)).
  vm_compute. reflexivity.
Defined.

Lemma esc_char_markup_free : forall c, forallb markup_free (esc_char c) = true.
Proof. intro c; each_char c. Qed.

Lemma esc_no_markup : forall s, forallb markup_free (esc s) = true.
Proof.
  intros [s|]; [|reflexivity]. rewrite esc_by_char.
  induction s as [|c s IH]; auto. cbn [flat_map].
  apply over_app. split; [apply esc_char_markup_free|exact IH].
Qed.

(** X1.  The text [esc] returns holds none of the characters that delimit
    XML markup or attribute values: no [<], [>], double or single quote. *)
Theorem esc_markup_free : forall s : option str,
  forallb markup_free (esc s) = true.
Proof. exact esc_no_markup. Qed.

Lemma count_char_app : forall c a b,
  count_char c (a ++ b) = count_char c a + count_char c b.
Proof.
  intros c a b. unfold count_char. rewrite filter_app, length_app.
  reflexivity.
Qed.

Lemma count_markup_free : forall c s,
  markup_free c = false -> forallb markup_free s = true ->
  count_char c s = 0.
Proof.
  intros c s Hc. unfold count_char.
  induction s as [|x s IH]; intro H; auto.
  apply over_cons in H as [Hx Hs]. cbn [filter].
  destruct (chr_eqb c x) eqn:E; [|apply IH, Hs].
  apply chr_eqb_eq in E. congruence.
Qed.

(** X3.  Whatever the seven fields hold, the request has exactly the
    eighteen [<], eighteen [>] and four double quotes of its fixed tags:
    field text cannot open or close an element or an attribute. *)
Theorem request_markup_is_fixed :
  forall userid street secondary city state zip5 zip4 : str,
    let xml :=
      build_usps_verify_xml userid street secondary city state zip5 zip4 in
    count_char "<" xml = 18 /\ count_char ">" xml = 18
    /\ count_char DQ xml = 4.
Proof.
  intros userid street secondary city state zip5 zip4 xml. subst xml.
  unfold build_usps_verify_xml.
  repeat split; rewrite !count_char_app;
    rewrite !(count_markup_free _ (esc _)) by
      (try reflexivity; apply esc_no_markup);
    reflexivity.
Qed.

Lemma usps_zip_parts_unfold : forall zip_code,
  usps_zip_parts zip_code
  = (if 5 <=? length (filter is_digit (or_empty zip_code))
     then upto 5 (filter is_digit (or_empty zip_code)) else [],
     if 9 <=? length (filter is_digit (or_empty zip_code))
     then upto 4 (from 5 (filter is_digit (or_empty zip_code))) else []).
Proof.
  intro z. unfold usps_zip_parts. cbv zeta. rewrite re_sub_non_digit.
  reflexivity.
Qed.

(** X4.  The ZIP that [call_usps_verify] puts in the request: [zip5] is
    empty or exactly five digits, [zip4] is empty or exactly four digits, and
    a [zip4] is never sent without its [zip5]. *)
Theorem request_zip_parts : forall zip_code : option str,
  let '(zip5, zip4) := usps_zip_parts zip_code in
  (zip5 = [] \/ five_digits zip5 = true)
  /\ (zip4 = []
      \/ (five_digits zip5 = true
          /\ length zip4 = 4 /\ digits_only zip4 = true)).
Proof.
  intro z. rewrite usps_zip_parts_unfold.
  pose proof (filter_digits_only (or_empty z)) as Hd.
  set (d := filter is_digit (or_empty z)) in *.
  assert (H5 : 5 <= length d -> five_digits (upto 5 d) = true).
  { intro H. unfold five_digits, upto, digits_only.
    rewrite length_firstn, (Nat.min_l _ _ H). cbn [Nat.eqb andb].
    apply over_firstn, Hd. }
  destruct (Nat.leb_spec 5 (length d)) as [L5|L5].
  - split; [right; apply H5, L5|].
    destruct (Nat.leb_spec 9 (length d)) as [L9|L9]; [|left; reflexivity].
    right. split; [apply H5, L5|]. unfold upto, from, digits_only. split.
    + rewrite length_firstn, length_skipn. lia.
    + apply over_firstn, over_skipn, Hd.
  - split; [left; reflexivity|].
    destruct (Nat.leb_spec 9 (length d)); [lia|left; reflexivity].
Qed.

(** X5.  A ZIP with five or nine digits survives the trip through the
    request and back: splitting the standardized ZIP as the request does and
    joining the two parts as the reply is read gives the standardized ZIP. *)
Theorem zip_request_round_trip : forall zip_code : str,
  length (filter is_digit zip_code) = 5
  \/ length (filter is_digit zip_code) = 9 ->
  let '(zip5, zip4) := usps_zip_parts (Some (standardize_zip zip_code)) in
  usps_combined_zip zip5 zip4 = standardize_zip zip_code.
Proof.
  intros x H. rewrite usps_zip_parts_unfold, or_empty_some.
  rewrite standardize_zip_digits.
  pose proof (filter_digits_only x) as Hd.
  unfold standardize_zip.
  destruct x as [|c x0]; [destruct H; discriminate|].
  cbn [truthy negb]. cbv zeta. rewrite re_sub_non_digit.
  set (d := filter is_digit (c :: x0)) in *. clearbody d.
  destruct H as [H|H].
  - rewrite H. cbn [Nat.leb Nat.eqb].
    unfold upto. rewrite <- H, firstn_all. unfold usps_combined_zip.
    rewrite andb_false_r. reflexivity.
  - rewrite H. cbn [Nat.leb Nat.eqb].
    do 9 (destruct d as [|? d]; [discriminate|]).
    destruct d; [|discriminate]. reflexivity.
Qed.

Lemma zip_request_round_trip_witness :
  length (filter is_digit (L "60606 1234")) = 9
  /\ (let '(zip5, zip4) :=
        usps_zip_parts (Some (standardize_zip (L "60606 1234"))) in
      usps_combined_zip zip5 zip4 = standardize_zip (L "60606 1234")).
Proof.
  split; [reflexivity|].
  apply (zip_request_round_trip (L "60606 1234")). right. reflexivity.
Defined.

(* ------------------------------------------------------------------ *)
(** ** Output column names *)

Lemma mem_In : forall x l, mem x l = true <-> In x l.
Proof.
  intros x l. unfold mem. rewrite existsb_exists. split.
  - intros (y & Hy & E). apply str_eqb_eq in E. subst y. exact Hy.
  - intro H. exists x. split; [exact H|]. apply str_eqb_eq. reflexivity.
Qed.

Lemma list_ascii_of_string_inj : forall a b,
  list_ascii_of_string a = list_ascii_of_string b -> a = b.
Proof.
  intros a b H.
  rewrite <- (string_of_list_ascii_of_string a),
          <- (string_of_list_ascii_of_string b), H. reflexivity.
Qed.

Lemma decimal_inj : forall m n, decimal m = decimal n -> m = n.
Proof.
  intros m n H. unfold decimal in H. apply list_ascii_of_string_inj in H.
  assert (E : Nat.to_uint m = Nat.to_uint n).
  { pose proof (NilEmpty.usu (Nat.to_uint m)) as Hm.
    pose proof (NilEmpty.usu (Nat.to_uint n)) as Hn.
    rewrite H in Hm. rewrite Hm in Hn. injection Hn as Hn. exact Hn. }
  apply Unsigned.to_uint_inj, E.
Qed.

Lemma numbered_inj : forall base m n,
  numbered base m = numbered base n -> m = n.
Proof.
  intros base m n H. unfold numbered in H.
  apply app_inv_head in H. apply app_inv_head in H. apply decimal_inj, H.
Qed.

Lemma numbered_not_base : forall base n, numbered base n <> base.
Proof.
  intros base n H. apply (f_equal (@length ascii)) in H.
  unfold numbered in H. rewrite !length_app in H. cbn [L length] in H.
  simpl in H. lia.
Qed.

Lemma numbered_NoDup : forall base l,
  NoDup l -> NoDup (map (numbered base) l).
Proof.
  intros base l H. induction H as [|x l Hx H IH]; [constructor|].
  cbn [map]. constructor; [|exact IH].
  intro Hin. apply in_map_iff in Hin as (y & Hy & Hin).
  apply numbered_inj in Hy. subst y. contradiction.
Qed.

(** What the loop returns when its fuel lasts: a name that is free, reached
    through names that are all taken. *)
Lemma free_name_result : forall fuel base std_name suffix fields r,
  free_name fuel base std_name suffix fields = Some r ->
  ~ In r fields
  /\ (r = std_name
      \/ (In std_name fields
          /\ exists k, suffix <= k /\ r = numbered base k
               /\ forall j, suffix <= j < k -> In (numbered base j) fields)).
Proof.
  induction fuel as [|fuel IH]; intros base name suffix fields r H;
    cbn [free_name] in H; destruct (mem name fields) eqn:E;
    try discriminate.
  - injection H as <-. split; [|left; reflexivity].
    intro Hin. apply mem_In in Hin. congruence.
  - apply IH in H as (Hfree & [->|(Hin & k & Hk & -> & Hall)]).
    + split; [exact Hfree|]. right. split; [apply mem_In, E|].
      exists suffix. repeat split; auto. intros j Hj. lia.
    + split; [exact Hfree|]. right. split; [apply mem_In, E|].
      exists k. repeat split; auto; try lia.
      intros j Hj. destruct (Nat.eq_dec j suffix) as [->|Hne]; [exact Hin|].
      apply Hall. lia.
  - injection H as <-. split; [|left; reflexivity].
    intro Hin. apply mem_In in Hin. congruence.
Qed.

(** When the loop runs out of fuel, the current name and the next [fuel]
    numbered names are all taken. *)
Lemma free_name_none : forall fuel base std_name suffix fields,
  free_name fuel base std_name suffix fields = None ->
  In std_name fields
  /\ forall j, suffix <= j < suffix + fuel -> In (numbered base j) fields.
Proof.
  induction fuel as [|fuel IH]; intros base name suffix fields H;
    cbn [free_name] in H; destruct (mem name fields) eqn:E;
    try discriminate.
  - split; [apply mem_In, E|]. intros j Hj. lia.
  - apply IH in H as [Hin Hall]. split; [apply mem_In, E|].
    intros j Hj. destruct (Nat.eq_dec j suffix) as [->|Hne]; [exact Hin|].
    apply Hall. lia.
Qed.

(** The loop always ends: the names it tries are pairwise different, so
    they cannot all be input columns. *)
Lemma std_field_returns : forall c fields,
  exists r, std_field c fields = Some r.
Proof.
  intros c fields. unfold std_field. cbv zeta.
  set (base := L "std_" ++ c).
  destruct (free_name (length fields) base base 1 fields) as [r|] eqn:E;
    [eauto|].
  exfalso. apply free_name_none in E as [Hb Hall].
  set (tried := base :: map (numbered base) (seq 1 (length fields))).
  assert (Hnd : NoDup tried).
  { constructor.
    - intro Hin. apply in_map_iff in Hin as (j & Hj & _).
      exact (numbered_not_base _ _ Hj).
    - apply numbered_NoDup, seq_NoDup. }
  assert (Hincl : incl tried fields).
  { intros x [<-|Hx]; [exact Hb|].
    apply in_map_iff in Hx as (j & <- & Hj). apply in_seq in Hj.
    apply Hall. lia. }
  pose proof (NoDup_incl_length Hnd Hincl) as Hlen.
  unfold tried in Hlen. cbn [length] in Hlen.
  rewrite length_map, length_seq in Hlen.
  exact (Nat.nle_succ_diag_l _ Hlen).
Qed.

(** X6.  For every column [c] and every list of input columns, the loop
    that names the output column ends, and the name it gives is not an input
    column: it is [std_c] when that is free, and otherwise [std_c_k] for the
    least [k >= 1] that is free. *)
Theorem std_field_is_free : forall (c : str) (input_fieldnames : list str),
  exists r,
    std_field c input_fieldnames = Some r
    /\ ~ In r input_fieldnames
    /\ (r = L "std_" ++ c
        \/ (In (L "std_" ++ c) input_fieldnames
            /\ exists k, 1 <= k /\ r = numbered (L "std_" ++ c) k
                 /\ forall j, 1 <= j < k ->
                      In (numbered (L "std_" ++ c) j) input_fieldnames)).
Proof.
  intros c fields. destruct (std_field_returns c fields) as [r Hr].
  exists r. split; [exact Hr|].
  unfold std_field in Hr. cbv zeta in Hr.
  apply free_name_result in Hr. exact Hr.
Qed.

(** The case of section 8: an input that already has [std_address1]. *)
Example std_field_collision :
  std_field (L "address1") [L "address1"; L "std_address1"]
  = Some (L "std_address1_1")
  /\ std_field (L "address1")
       [L "std_address1"; L "std_address1_1"; L "address1"]
     = Some (L "std_address1_2")
  /\ std_field (L "city") [L "address1"; L "std_address1"]
     = Some (L "std_city").
Proof. repeat split; vm_compute; reflexivity. Qed.

(* ------------------------------------------------------------------ *)
(** ** The Full-Address Splitter *)

Ltac open_den :=
  repeat match goal with
         | H : exists _, _ |- _ => destruct H
         | H : _ /\ _ |- _ => destruct H
         | H : _ \/ _ |- _ => destruct H
         end.

(** The text the ZIP pattern captures. *)
Lemma zip_group_shape : forall t m,
  re_search ZIP_RE t = Some m ->
  (five_digits (group m "1") = true \/ zip_plus4 (group m "1") = true)
  /\ exists c, In c t /\ is_digit c = true.
Proof.
  intros t m H. apply re_search_sound in H as (pre & s0 & s' & Hs & H).
  unfold group. unfold ZIP_RE, Opt, chr in H. cbn [seqs fold_right den] in H.
  open_den; subst;
    match goal with H : m_caps m = _ |- _ => rewrite H end;
    cbn [lookup_group String.eqb Ascii.eqb Bool.eqb].
  - split.
    + right.
      match goal with
      | |- context [firstn _ (?a :: ?b :: ?c :: ?d :: ?e :: ?f :: ?g :: ?h
                               :: ?i :: ?j :: ?r)] =>
          change (a :: b :: c :: d :: e :: f :: g :: h :: i :: j :: r)
            with ([a; b; c; d; e; f; g; h; i; j] ++ r)
      end.
      rewrite firstn_consumed. unfold zip_plus4, digits_only, upto, from.
      cbn [length Nat.eqb firstn skipn forallb str_eqb L
             list_ascii_of_string].
      repeat match goal with
             | H : is_digit _ = true |- _ => rewrite H; clear H
             | H : chr_eqb _ _ = true |- _ =>
                 apply chr_eqb_eq in H; subst
             end.
      reflexivity.
    + eexists. split; [apply in_or_app; right; left; reflexivity|].
      assumption.
  - split.
    + left.
      match goal with
      | |- context [firstn _ (?a :: ?b :: ?c :: ?d :: ?e :: ?r)] =>
          change (a :: b :: c :: d :: e :: r) with ([a; b; c; d; e] ++ r)
      end.
      rewrite firstn_consumed. unfold five_digits, digits_only.
      cbn [length Nat.eqb forallb].
      repeat match goal with
             | H : is_digit _ = true |- _ => rewrite H; clear H
             end.
      reflexivity.
    + eexists. split; [apply in_or_app; right; left; reflexivity|].
      assumption.
Qed.

Lemma cut_zip_shape : forall t dflt,
  fst (Parser.cut_zip t dflt) = []
  \/ five_digits (fst (Parser.cut_zip t dflt)) = true
  \/ zip_plus4 (fst (Parser.cut_zip t dflt)) = true.
Proof.
  intros t dflt. unfold Parser.cut_zip.
  destruct (re_search ZIP_RE t) as [m|] eqn:E; [|left; reflexivity].
  right. apply (zip_group_shape t m E).
Qed.

Lemma five_digits_fixed : forall z,
  five_digits z = true -> standardize_zip z = z.
Proof.
  intros z H. unfold five_digits in H. apply andb_true_iff in H as [Hl Hd].
  unfold standardize_zip. rewrite re_sub_non_digit.
  rewrite (digits_filter_fixed z Hd).
  destruct z; [discriminate|]. cbn [truthy negb].
  apply Nat.eqb_eq in Hl. rewrite Hl. reflexivity.
Qed.

Lemma zip_plus4_fixed : forall z,
  zip_plus4 z = true -> standardize_zip z = z.
Proof.
  intros z H. unfold zip_plus4 in H.
  apply andb_true_iff in H as [H H4]. apply andb_true_iff in H as [H Hm].
  apply andb_true_iff in H as [Hl H5]. apply Nat.eqb_eq in Hl.
  do 10 (destruct z as [|? z]; [discriminate|]).
  destruct z; [|discriminate].
  unfold digits_only, upto, from in *.
  cbn [firstn skipn forallb str_eqb L list_ascii_of_string] in *.
  repeat match goal with
         | H : _ && _ = true |- _ => apply andb_true_iff in H as [? ?]
         end.
  match goal with
  | H : chr_eqb _ "-" = true |- _ => apply chr_eqb_eq in H; subst
  end.
  unfold standardize_zip. cbn [truthy negb]. rewrite re_sub_non_digit.
  cbn [filter].
  repeat match goal with
         | H : is_digit _ = true |- _ => rewrite H; clear H
         end.
  reflexivity.
Qed.

Lemma parse_phase_zip : forall s parts street unit city0 state0 zipc,
  Parser.parse_phase s parts = Ok (street, unit, city0, state0, zipc) ->
  zipc = [] \/ five_digits zipc = true \/ zip_plus4 zipc = true.
Proof.
  intros s parts street unit city0 state0 zipc H.
  unfold Parser.parse_phase in H.
  destruct (3 <=? length parts).
  - destruct (index_back parts 2); [|discriminate].
    destruct (index_back parts 1) as [tail|]; [|discriminate].
    cbn [bind] in H.
    pose proof (cut_zip_shape tail (py_strip tail)) as Hz.
    destruct (Parser.cut_zip tail (py_strip tail)) as [zc x].
    destruct (extract_unit _). injection H as _ _ _ _ <-. exact Hz.
  - destruct (length parts =? 2).
    + destruct (index_at parts 0); [|discriminate].
      destruct (index_at parts 1) as [right|]; [|discriminate].
      cbn [bind] in H.
      pose proof (cut_zip_shape right right) as Hz.
      destruct (Parser.cut_zip right right) as [zc x].
      destruct (if truthy_list (py_split x) then _ else _);
        [|discriminate].
      cbn [bind] in H. destruct (extract_unit _).
      injection H as _ _ _ _ <-. exact Hz.
    + pose proof (cut_zip_shape s s) as Hz.
      destruct (Parser.cut_zip s s) as [zc x]. cbn [fst] in Hz.
      destruct (Parser.first_numeric _ 0).
      * destruct (3 <=? length (py_split x)).
        -- destruct (index_back (py_split x) 1); [|discriminate].
           cbn [bind] in H. destruct (_ || _);
             injection H as _ _ _ _ <-; exact Hz.
        -- injection H as _ _ _ _ <-. exact Hz.
      * injection H as _ _ _ _ <-. exact Hz.
Qed.

Lemma parser_tables_clean :
  forallb (fun e => clean_text (snd e)) Parser.SUFFIX_MAP = true
  /\ forallb (fun e => clean_text (snd e)) Parser.DIR_MAP = true
  /\ forallb (fun e => two_letter_code (snd e)) Parser.STATE_MAP = true.
Proof. repeat split; vm_compute; reflexivity. Qed.

Lemma normalize5_fields : forall street unit city0 state0 zipc,
  exists a1 a2 c,
    Parser.normalize5 (street, unit, city0, state0, zipc)
    = (a1, a2, c, Parser.standardize_state state0, standardize_zip zipc)
    /\ c = upper_and_cleanup (Some city0)
    /\ clean_text a1 = true /\ clean_text a2 = true /\ clean_text c = true.
Proof.
  intros street unit city0 state0 zipc. unfold Parser.normalize5.
  unfold Parser.standardize_address_components_local.
  destruct parser_tables_clean as (Hs & Hd & _).
  pose proof (normalizer_fields Parser.SUFFIX_MAP Parser.DIR_MAP
                Parser.STATE_MAP Parser.po_box_line Hs Hd
                po_box_inline_clean street (Some unit) (Some city0)
                (Some state0) (Some zipc)) as F.
  cbv zeta in F. destruct F as (F1 & F2 & F3 & F4 & F5 & F6).
  rewrite !or_empty_some in *. rewrite F4, F5.
  eexists _, _, _. split; [reflexivity|]. auto.
Qed.

(** X15.  Whatever text it is given, [parse_full_address] raises nothing
    and returns a zip that is empty, five digits, or [DDDDD-DDDD]; when the
    text is ASCII, the street, unit and city it returns are clean text. *)
Theorem parse_full_address_zip_shape : forall full : option str,
  match Parser.parse_full_address full with
  | Ok (a1, a2, c, st, z) =>
      (z = [] \/ five_digits z = true \/ zip_plus4 z = true)
      /\ (ascii_opt full = true ->
          clean_text a1 = true /\ clean_text a2 = true
          /\ clean_text c = true)
  | Raise _ => False
  end.
Proof.
  intro full. unfold Parser.parse_full_address.
  destruct (negb (truthy_opt full)).
  { cbn. split; [left; reflexivity|]. intros _. repeat split. }
  cbv zeta.
  destruct (Parser.parse_phase _ _) as [[[[[street unit] c0] s0] zc]|e] eqn:E.
  - apply parse_phase_zip in E.
    destruct (normalize5_fields street unit c0 s0 zc)
      as (a1 & a2 & c & -> & _ & H1 & H2 & H3).
    split; [|intros _; repeat split; assumption].
    destruct E as [->|[E|E]].
    + left. reflexivity.
    + right; left. rewrite (five_digits_fixed _ E). exact E.
    + right; right. rewrite (zip_plus4_fixed _ E). exact E.
  - cbn. split; [left; reflexivity|]. intros _. repeat split.
Qed.

(** The second example of section 8 with state and ZIP in one segment. *)
Example parse_full_address_ascii_line :
  ascii_opt (Some (L "456 Elm St Apt 4B, Smallville, Illinois 60606-1234"))
  = true
  /\ Parser.parse_full_address
       (Some (L "456 Elm St Apt 4B, Smallville, Illinois 60606-1234"))
     = Ok (L "456 ELM ST", L "APT 4B", L "SMALLVILLE", L "IL",
           L "60606-1234").
Proof. split; vm_compute; reflexivity. Qed.

Lemma plain_not_digit : forall c, plain_char c = true -> is_digit c = false.
Proof.
  intros c H. unfold plain_char in H. apply andb_true_iff in H as [H _].
  apply negb_true_iff, H.
Qed.

Lemma plain_not_comma : forall c,
  plain_char c = true -> chr_eqb "," c = false.
Proof. intro c; each_char c. Qed.

Lemma plain_no_digit_in : forall s c,
  forallb plain_char s = true -> In c s -> is_digit c = true -> False.
Proof.
  intros s c H Hin Hd. rewrite forallb_forall in H.
  apply H, plain_not_digit in Hin. congruence.
Qed.

Lemma digit_search_finds : forall t m,
  re_search DIGIT_RE t = Some m -> exists c, In c t /\ is_digit c = true.
Proof.
  intros t m H. apply re_search_sound in H as (pre & s0 & s' & -> & H).
  unfold DIGIT_RE in H. simpl in H. destruct H as (c & -> & Hc & _).
  exists c. split; [apply in_or_app; right; left; reflexivity|exact Hc].
Qed.

Lemma split_by_keeps : forall (P : ascii -> bool) sep s t,
  forallb P s = true -> In t (split_by sep s) -> forallb P t = true.
Proof.
  intros P sep s. induction s as [|c s IH]; intros t H Hin.
  - destruct Hin as [<-|[]]. reflexivity.
  - apply over_cons in H as [Hc Hs]. cbn [split_by] in Hin.
    destruct (sep c).
    + destruct Hin as [<-|Hin]; [reflexivity|]. apply IH; auto.
    + destruct (split_by sep s) as [|h tl] eqn:E.
      * destruct Hin as [<-|[]]. simpl. rewrite Hc. reflexivity.
      * destruct Hin as [<-|Hin].
        -- apply over_cons. split; [exact Hc|]. apply IH; auto. left.
           reflexivity.
        -- apply IH; auto. right. exact Hin.
Qed.

Lemma split_by_absent : forall sep s,
  forallb (fun c => negb (sep c)) s = true -> split_by sep s = [s].
Proof.
  intros sep s. induction s as [|c s IH]; intro H; auto.
  apply over_cons in H as [Hc Hs]. apply negb_true_iff in Hc.
  cbn [split_by]. rewrite Hc, (IH Hs). reflexivity.
Qed.

Lemma first_numeric_none : forall tokens i,
  (forall t, In t tokens -> forallb plain_char t = true) ->
  Parser.first_numeric tokens i = None.
Proof.
  induction tokens as [|t tokens IH]; intros i H; auto.
  cbn [Parser.first_numeric].
  destruct (re_search DIGIT_RE t) as [m|] eqn:E.
  - apply digit_search_finds in E as (c & Hin & Hc). exfalso.
    apply (plain_no_digit_in t c); auto. apply H. left. reflexivity.
  - cbn [is_some]. apply IH. intros u Hu. apply H. right. exact Hu.
Qed.

Lemma flatten_breaks_plain : forall full,
  forallb plain_char full = true ->
  forallb plain_char (Parser.flatten_breaks full) = true.
Proof.
  intros full H. unfold Parser.flatten_breaks. cbv zeta.
  apply over_squeeze; [reflexivity|].
  apply over_replace; [reflexivity|]. apply over_replace; [reflexivity|].
  apply over_strip, H.
Qed.

(** Without a comma there is at most one segment, and without a digit no
    ZIP and no numeric token: the parsing phase keeps the whole line as
    street. *)
Lemma parse_phase_plain : forall s,
  forallb plain_char s = true ->
  Parser.parse_phase s (Parser.segments s) = Ok (s, [], [], [], []).
Proof.
  intros s H. unfold Parser.segments, py_split_comma.
  rewrite split_by_absent.
  2:{ apply (over_weaken plain_char); auto. intros c Hc.
      cbv beta. rewrite (plain_not_comma c Hc). reflexivity. }
  assert (Hz : Parser.cut_zip s s = ([], s)).
  { unfold Parser.cut_zip. destruct (re_search ZIP_RE s) as [m|] eqn:E; auto.
    apply zip_group_shape in E as (_ & c & Hin & Hc). exfalso.
    apply (plain_no_digit_in s c); auto. }
  assert (Hn : Parser.first_numeric (py_split s) 0 = None).
  { apply first_numeric_none. intros t Ht. unfold py_split in Ht.
    apply filter_In in Ht as [Ht _]. apply (split_by_keeps plain_char is_space s); auto. }
  unfold Parser.parse_phase. cbn [filter].
  destruct (truthy (py_strip s)); cbn [map length Nat.leb Nat.eqb];
    rewrite Hz, Hn; reflexivity.
Qed.

(** X14.  A line without any comma and without any digit is never split:
    [parse_full_address] returns an empty city, state and zip, and the
    street and unit are what the normaliser makes of the whole line. *)
Theorem parse_plain_line : forall full : str,
  forallb plain_char full = true ->
  exists street unit,
    Parser.parse_full_address (Some full) = Ok (street, unit, [], [], [])
    /\ (truthy full = true ->
        (street, unit, [], [], [])
        = Parser.normalize5 (Parser.flatten_breaks full, [], [], [], [])).
Proof.
  intros full H. unfold Parser.parse_full_address.
  destruct full as [|c full0]; cbn [truthy_opt truthy negb].
  { exists [], []. split; [reflexivity|discriminate]. }
  cbv zeta. rewrite or_empty_some.
  rewrite (parse_phase_plain _ (flatten_breaks_plain _ H)).
  cbv beta iota.
  destruct (normalize5_fields (Parser.flatten_breaks (c :: full0)) [] [] [] [])
    as (a1 & a2 & c' & E & -> & _).
  exists a1, a2. split; [f_equal; exact E|intros _; symmetry; exact E].
Qed.

Lemma parse_plain_line_witness :
  forallb plain_char (L "Main Street Apt B") = true
  /\ exists street unit,
       Parser.parse_full_address (Some (L "Main Street Apt B"))
       = Ok (street, unit, [], [], [])
       /\ (truthy (L "Main Street Apt B") = true ->
           (street, unit, [], [], [])
           = Parser.normalize5
               (Parser.flatten_breaks (L "Main Street Apt B"), [], [], [],
                [])).
Proof.
  split; [reflexivity|].
  apply (parse_plain_line (L "Main Street Apt B")). reflexivity.
Defined.

(** On such a line the unit is still taken out of the street. *)
Example parse_plain_line_unit :
  Parser.parse_full_address (Some (L "Main Street Apt B"))
  = Ok (L "MAIN ST", L "APT B", [], [], []).
Proof. vm_compute. reflexivity. Qed.

(* ------------------------------------------------------------------ *)
(** ** The Token Canonicalizer on words *)

Lemma starts_with_In : forall w s x,
  starts_with w s = true -> In x w -> In x s.
Proof.
  induction w as [|c w IH]; intros [|d s] x H Hin; simpl in *;
    try contradiction; try discriminate.
  apply andb_true_iff in H as [Hc H]. apply chr_eqb_eq in Hc. subst d.
  destruct Hin as [<-|Hin]; [left; reflexivity|right; eauto].
Qed.

(** A word that holds a character the text does not hold is found nowhere
    in it. *)
Lemma sub_word_absent : forall w v x s prev,
  In x w -> ~ In x s ->
  sub_from (whole_word w) v prev s 0 = s.
Proof.
  intros w v x s. induction s as [|c s IH]; intros prev Hw Hs; auto.
  cbn [sub_from]. rewrite match_here_word.
  destruct (starts_with w (c :: s)) eqn:E.
  - exfalso. apply Hs. apply (starts_with_In w); assumption.
  - rewrite andb_false_r. cbn [andb]. f_equal. apply IH; auto.
    intro Hin. apply Hs. right. exact Hin.
Qed.

Lemma last_prev_word : forall w p,
  forallb is_word w = true -> (w = [] -> wordb p = true) ->
  wordb (last_prev p w) = true.
Proof.
  induction w as [|c w IH]; intros p Hw Hp; [auto|].
  apply over_cons in Hw as [Hc Hw]. cbn [last_prev].
  apply IH; auto.
Qed.

Lemma starts_with_self : forall w rest, starts_with w (w ++ rest) = true.
Proof.
  induction w as [|c w IH]; intro rest; auto. simpl.
  unfold chr_eqb. rewrite Ascii.eqb_refl. apply IH.
Qed.

Lemma skipn_self : forall (w rest : str), skipn (length w) (w ++ rest) = rest.
Proof. induction w as [|c w IH]; intro rest; auto. apply IH. Qed.

Section OneEntry.

Variable w v : str.
Variable rest : str.

Hypothesis w_word : word_token w = true.
Hypothesis rest_end : word_end rest = true.

Lemma w_all_word : forallb is_word w = true.
Proof. unfold word_token in w_word. apply andb_true_iff in w_word. tauto. Qed.

Lemma w_not_empty : truthy w = true.
Proof. unfold word_token in w_word. apply andb_true_iff in w_word. tauto. Qed.

Lemma rest_boundary : forall p, wordb p = true -> at_boundary p rest = true.
Proof.
  intros p Hp. unfold at_boundary. rewrite Hp.
  destruct rest as [|c r]; [reflexivity|]. simpl in *.
  apply negb_true_iff in rest_end. rewrite rest_end. reflexivity.
Qed.

(** A key that is a proper part of a longer word, or longer than the word,
    does not match at the start of the word. *)
Lemma no_partial_match : forall k tok p,
  forallb is_word k = true -> forallb is_word tok = true ->
  (k = [] -> wordb p = true) ->
  starts_with k (tok ++ rest) = true -> tok <> k ->
  at_boundary (last_prev p k) (skipn (length k) (tok ++ rest)) = false.
Proof.
  induction k as [|x k IH]; intros tok p Hk Ht Hp Hs Hne.
  - destruct tok as [|c tok]; [contradiction|].
    apply over_cons in Ht as [Hc _]. cbn [last_prev length skipn app].
    unfold at_boundary. rewrite (Hp eq_refl). simpl. rewrite Hc. reflexivity.
  - apply over_cons in Hk as [Hx Hk]. destruct tok as [|c tok].
    + exfalso. cbn [app] in Hs. destruct rest as [|d r]; [discriminate|].
      cbn [starts_with] in Hs. apply andb_true_iff in Hs as [Hd _].
      apply chr_eqb_eq in Hd. subst d. simpl in rest_end.
      rewrite Hx in rest_end. discriminate.
    + apply over_cons in Ht as [Hc Ht]. cbn [app starts_with] in Hs.
      apply andb_true_iff in Hs as [Hxc Hs]. apply chr_eqb_eq in Hxc.
      subst c. cbn [last_prev length skipn app].
      apply IH; auto.
      intro E. apply Hne. rewrite E. reflexivity.
Qed.

Lemma match_token : forall tok prev,
  word_token tok = true -> wordb prev = false ->
  match_here (whole_word w) prev (tok ++ rest)
  = if str_eqb tok w then Some (length w, []) else None.
Proof.
  intros tok prev Ht Hp. rewrite match_here_word.
  unfold word_token in Ht. apply andb_true_iff in Ht as [Hne Ht].
  destruct (str_eqb tok w) eqn:E.
  - apply str_eqb_eq in E. subst tok.
    rewrite starts_with_self, skipn_self.
    rewrite rest_boundary.
    + destruct w as [|c w']; [discriminate|].
      apply over_cons in Ht as [Hc _]. unfold at_boundary. rewrite Hp.
      simpl. rewrite Hc. reflexivity.
    + apply last_prev_word; auto. intro E. rewrite E in Hne. discriminate.
  - destruct (starts_with w (tok ++ rest)) eqn:Es;
      [|rewrite andb_false_r; reflexivity].
    rewrite no_partial_match; auto.
    + rewrite andb_false_r. reflexivity.
    + apply w_all_word.
    + intro Ew. pose proof w_not_empty as Hw. rewrite Ew in Hw. discriminate.
    + intro Eq. subst tok.
      assert (str_eqb w w = true) by (apply str_eqb_eq; reflexivity).
      congruence.
Qed.

(** Inside a word nothing matches: the rest of the word is copied. *)
Lemma sub_inside_word : forall u prev,
  forallb is_word u = true -> wordb prev = true ->
  sub_from (whole_word w) v prev (u ++ rest) 0
  = u ++ sub_from (whole_word w) v (last_prev prev u) rest 0.
Proof.
  induction u as [|c u IH]; intros prev Hu Hp; [reflexivity|].
  apply over_cons in Hu as [Hc Hu]. cbn [app sub_from].
  rewrite match_here_word. unfold at_boundary at 1. rewrite Hp. simpl hd_error.
  cbn [wordb]. rewrite Hc. cbn [xorb andb last_prev]. f_equal.
  apply IH; auto.
Qed.

Lemma sub_skip_word : forall u prev,
  sub_from (whole_word w) v prev (u ++ rest) (length u)
  = sub_from (whole_word w) v (last_prev prev u) rest 0.
Proof.
  induction u as [|c u IH]; intro prev; [reflexivity|].
  cbn [app length sub_from last_prev]. apply IH.
Qed.

(** A whole word is rewritten when it is the key and copied otherwise. *)
Lemma sub_token : forall tok prev,
  word_token tok = true -> wordb prev = false ->
  sub_from (whole_word w) v prev (tok ++ rest) 0
  = entry_word (w, v) tok
    ++ sub_from (whole_word w) v (last_prev prev tok) rest 0.
Proof.
  intros tok prev Ht Hp. pose proof (match_token tok prev Ht Hp) as Hm.
  unfold entry_word. cbn [fst snd].
  unfold word_token in Ht. apply andb_true_iff in Ht as [Hne Ht].
  destruct tok as [|c tok]; [discriminate|].
  apply over_cons in Ht as [Hc Ht].
  cbn [app sub_from]. cbn [app] in Hm. rewrite Hm.
  destruct (str_eqb (c :: tok) w) eqn:E.
  - apply str_eqb_eq in E.
    assert (Hl : length w = S (length tok)) by (rewrite <- E; reflexivity).
    rewrite Hl. f_equal. apply (sub_skip_word tok (Some c)).
  - cbn [last_prev app]. f_equal. apply sub_inside_word; auto.
Qed.

End OneEntry.

Lemma sub_nonword_char : forall w v c s prev,
  word_token w = true -> is_word c = false ->
  sub_from (whole_word w) v prev (c :: s) 0
  = c :: sub_from (whole_word w) v (Some c) s 0.
Proof.
  intros w v c s prev Hw Hc. cbn [sub_from]. rewrite match_here_word.
  unfold word_token in Hw. apply andb_true_iff in Hw as [Hne Hw].
  destruct w as [|x w]; [discriminate|].
  apply over_cons in Hw as [Hx _]. cbn [starts_with].
  destruct (chr_eqb x c) eqn:E.
  - apply chr_eqb_eq in E. congruence.
  - rewrite andb_false_r. reflexivity.
Qed.

Lemma entry_word_token : forall e tok,
  word_token (snd e) = true -> word_token tok = true ->
  word_token (entry_word e tok) = true.
Proof. intros e tok He Ht. unfold entry_word. destruct (str_eqb _ _); auto. Qed.

(** One substitution over a line of words separated by single blanks. *)
Lemma sub_words : forall w v tokens prev,
  word_token w = true -> forallb word_token tokens = true ->
  wordb prev = false ->
  sub_from (whole_word w) v prev (py_join [SP] tokens) 0
  = py_join [SP] (map (entry_word (w, v)) tokens).
Proof.
  intros w v tokens. induction tokens as [|t ts IH]; intros prev Hw Ht Hp;
    [reflexivity|].
  cbn [forallb] in Ht. apply andb_true_iff in Ht as [Ht Hts].
  destruct ts as [|t2 ts].
  - cbn [py_join map]. rewrite <- (app_nil_r t) at 1.
    rewrite (sub_token w v [] Hw eq_refl t prev Ht Hp). cbn [sub_from].
    apply app_nil_r.
  - change (py_join [SP] (t :: t2 :: ts))
      with (t ++ SP :: py_join [SP] (t2 :: ts)).
    change (py_join [SP] (map (entry_word (w, v)) (t :: t2 :: ts)))
      with (entry_word (w, v) t
            ++ SP :: py_join [SP] (map (entry_word (w, v)) (t2 :: ts))).
    rewrite (sub_token w v (SP :: py_join [SP] (t2 :: ts)) Hw eq_refl t
               prev Ht Hp).
    rewrite (sub_nonword_char w v SP _ _ Hw eq_refl).
    rewrite (IH (Some SP) Hw Hts eq_refl). reflexivity.
Qed.

Lemma word_not_space : forall c, is_word c = true -> is_space c = false.
Proof. intro c; each_char c. Qed.

Lemma join_chars : forall tokens x,
  forallb word_token tokens = true -> In x (py_join [SP] tokens) ->
  is_word x = true \/ x = SP.
Proof.
  induction tokens as [|t ts IH]; intros x H Hin; [destruct Hin|].
  cbn [forallb] in H. apply andb_true_iff in H as [Ht Hts].
  unfold word_token in Ht. apply andb_true_iff in Ht as [_ Ht].
  rewrite forallb_forall in Ht.
  destruct ts as [|t2 ts]; cbn [py_join] in Hin.
  - left. apply Ht, Hin.
  - apply in_app_or in Hin as [Hin|Hin]; [left; apply Ht, Hin|].
    apply in_app_or in Hin as [[<-|[]]|Hin]; [right; reflexivity|].
    apply IH; auto.
Qed.

Lemma sub_words_ok : forall e tokens,
  key_ok (fst e) = true -> forallb word_token tokens = true ->
  re_sub (whole_word (fst e)) (snd e) (py_join [SP] tokens)
  = py_join [SP] (map (entry_word e) tokens).
Proof.
  intros [k v] tokens Hk Ht. cbn [fst snd] in *. unfold re_sub.
  destruct (word_token k) eqn:Ew.
  - apply sub_words; auto.
  - unfold key_ok in Hk. rewrite Ew in Hk. cbn [orb] in Hk.
    apply existsb_exists in Hk as (x & Hx & Hc).
    apply andb_true_iff in Hc as [Hnw Hns].
    apply negb_true_iff in Hnw. apply negb_true_iff in Hns.
    rewrite (sub_word_absent k v x).
    + f_equal. symmetry. rewrite <- (map_id tokens) at 2.
      apply map_ext_in. intros t Hin. unfold entry_word. cbn [fst snd].
      destruct (str_eqb t k) eqn:E; [|reflexivity].
      apply str_eqb_eq in E. subst t. rewrite forallb_forall in Ht.
      apply Ht in Hin. congruence.
    + exact Hx.
    + intro Hin. apply (join_chars tokens x Ht) in Hin as [Hin| ->].
      * congruence.
      * unfold chr_eqb in Hns. rewrite Ascii.eqb_refl in Hns. discriminate.
Qed.

Lemma chain_cons : forall e t tok,
  chain (e :: t) tok = chain t (entry_word e tok).
Proof. reflexivity. Qed.

(** A pass of a table over a line of words rewrites each word on its own. *)
Lemma apply_table_words : forall t tokens,
  table_ok t = true -> forallb word_token tokens = true ->
  apply_table t (py_join [SP] tokens) = py_join [SP] (map (chain t) tokens)
  /\ forallb word_token (map (chain t) tokens) = true.
Proof.
  unfold table_ok.
  induction t as [|e t IH]; intros tokens Ht Htok.
  - cbn [apply_table fold_left]. unfold chain. cbn [fold_left].
    rewrite map_id. auto.
  - cbn [forallb] in Ht. apply andb_true_iff in Ht as [He Ht].
    apply andb_true_iff in He as [Hk Hv].
    assert (Hnext : forallb word_token (map (entry_word e) tokens) = true).
    { rewrite forallb_forall in *. intros x Hx.
      apply in_map_iff in Hx as (y & <- & Hy).
      apply entry_word_token; auto. }
    destruct (IH _ Ht Hnext) as [IH1 IH2]. rewrite map_map in IH1, IH2.
    unfold apply_table in *. cbn [fold_left].
    rewrite (sub_words_ok e tokens Hk Htok). split.
    + rewrite IH1. f_equal.
    + exact IH2.
Qed.

Lemma chain_lookup : forall t tok,
  settled t = true -> chain t tok = lookup_or_self t tok.
Proof.
  induction t as [|[k v] t IH]; intros tok H; [reflexivity|].
  cbn [settled snd] in H. apply andb_true_iff in H as [H Hs].
  apply andb_true_iff in H as [Hv _]. apply str_eqb_eq in Hv.
  rewrite chain_cons. unfold entry_word, lookup_or_self. cbn [fst snd table_get].
  destruct (str_eqb tok k); [exact Hv|]. apply IH, Hs.
Qed.

Lemma word_token_no_blank : forall t,
  word_token t = true ->
  truthy t = true /\ forallb (fun c => negb (is_space c)) t = true.
Proof.
  intros t H. unfold word_token in H. apply andb_true_iff in H as [Hne H].
  split; [exact Hne|]. apply (over_weaken is_word); auto.
  intros c Hc. rewrite (word_not_space c Hc). reflexivity.
Qed.

(** A line of words separated by single blanks is trimmed and
    single-spaced. *)
Lemma join_tidy : forall tokens,
  forallb word_token tokens = true ->
  tokens <> [] ->
  headed (py_join [SP] tokens)
  /\ truthy (py_join [SP] tokens) = true
  /\ rstrip (py_join [SP] tokens) = py_join [SP] tokens
  /\ single_spaced (py_join [SP] tokens) = true.
Proof.
  induction tokens as [|t ts IH]; intros H Hne; [contradiction|].
  cbn [forallb] in H. apply andb_true_iff in H as [Ht Hts].
  destruct (word_token_no_blank t Ht) as [Htr Hnb].
  assert (Hh : headed t).
  { destruct t as [|c t]; [discriminate|]. simpl.
    apply over_cons in Hnb as [Hc _]. apply negb_true_iff, Hc. }
  destruct ts as [|t2 ts].
  - cbn [py_join]. repeat split; auto.
    + apply rstrip_no_space, Hnb.
    + apply no_blank_spaced, Hnb.
  - destruct (IH Hts) as (J1 & J2 & J3 & J4); [discriminate|].
    change (py_join [SP] (t :: t2 :: ts))
      with (t ++ SP :: py_join [SP] (t2 :: ts)).
    set (J := py_join [SP] (t2 :: ts)) in *. repeat split.
    + destruct t; [discriminate|exact Hh].
    + destruct t; [discriminate|reflexivity].
    + change (t ++ SP :: J) with (t ++ [SP] ++ J). rewrite app_assoc.
      apply rstrip_app_fixed; auto.
    + rewrite (no_blank_prefix_spaced t _ Hnb). cbn [single_spaced].
      rewrite J4. change (is_space SP) with true. cbv iota.
      change (chr_eqb SP SP) with true. cbn [andb].
      rewrite andb_true_r. apply next_not_blank, J1.
Qed.

Lemma squeeze_join : forall tokens,
  forallb word_token tokens = true ->
  squeeze (py_join [SP] tokens) = py_join [SP] tokens.
Proof.
  intros [|t ts] H; [reflexivity|].
  destruct (join_tidy (t :: ts) H) as (J1 & J2 & J3 & J4); [discriminate|].
  rewrite (spaced_squeeze _ J4). unfold py_strip.
  rewrite (headed_lstrip _ J1). exact J3.
Qed.

Section Words.

Variable SUFFIX_MAP DIR_MAP : list (str * str).

Hypothesis suffix_ok : table_ok SUFFIX_MAP = true.
Hypothesis dir_ok : table_ok DIR_MAP = true.
Hypothesis suffix_settled : settled SUFFIX_MAP = true.
Hypothesis dir_settled : settled DIR_MAP = true.

Lemma replace_suffixes_and_dirs_words : forall tokens,
  forallb word_token tokens = true ->
  replace_suffixes_and_dirs SUFFIX_MAP DIR_MAP (py_join [SP] tokens)
  = py_join [SP]
      (map (fun t => lookup_or_self SUFFIX_MAP (lookup_or_self DIR_MAP t))
         tokens).
Proof.
  intros tokens H. unfold replace_suffixes_and_dirs.
  destruct (py_join [SP] tokens) eqn:E.
  - destruct tokens as [|t ts]; [reflexivity|].
    destruct (join_tidy (t :: ts) H) as (_ & J2 & _); [discriminate|].
    rewrite E in J2. discriminate.
  - cbn [truthy negb]. cbv zeta. rewrite <- E.
    destruct (apply_table_words DIR_MAP tokens dir_ok H) as [D1 D2].
    rewrite D1.
    destruct (apply_table_words SUFFIX_MAP _ suffix_ok D2) as [S1 S2].
    rewrite S1, (squeeze_join _ S2), map_map. f_equal.
    apply map_ext. intro t.
    rewrite (chain_lookup DIR_MAP t dir_settled).
    apply chain_lookup, suffix_settled.
Qed.

End Words.

Lemma usps_tables_settled :
  table_ok Usps.SUFFIX_MAP = true /\ table_ok Usps.DIR_MAP = true
  /\ settled Usps.SUFFIX_MAP = true /\ settled Usps.DIR_MAP = true.
Proof. repeat split; vm_compute; reflexivity. Qed.

(** X13.  On a line of words separated by single blanks the Token
    Canonicalizer is a dictionary: each word is looked up in [DIR_MAP], the
    result in [SUFFIX_MAP], and a word that is no key is left as it is; the
    order of the entries never shows. *)
Theorem canonicalizer_is_lookup : forall tokens : list str,
  forallb word_token tokens = true ->
  Usps.replace_suffixes_and_dirs (py_join (L " ") tokens)
  = py_join (L " ")
      (map (fun t =>
              lookup_or_self Usps.SUFFIX_MAP (lookup_or_self Usps.DIR_MAP t))
         tokens).
Proof.
  intros tokens H.
  destruct usps_tables_settled as (H1 & H2 & H3 & H4).
  apply replace_suffixes_and_dirs_words; assumption.
Qed.

Lemma canonicalizer_is_lookup_witness :
  forallb word_token [L "100"; L "NORTH"; L "MAIN"; L "STREET"] = true
  /\ Usps.replace_suffixes_and_dirs (L "100 NORTH MAIN STREET")
     = L "100 N MAIN ST".
Proof.
  split; [reflexivity|].
  apply (canonicalizer_is_lookup [L "100"; L "NORTH"; L "MAIN"; L "STREET"]).
  reflexivity.
Defined.

(** ** Table entries that never fire *)

Lemma clean_text_no_period : forall s,
  clean_text s = true -> ~ In "."%char s.
Proof.
  intros s H Hin. unfold clean_text in H. rewrite forallb_forall in H.
  apply H in Hin. revert Hin. vm_compute. discriminate.
Qed.

Lemma apply_table_word_entries : forall t s,
  dotted_or_word t = true ->
  forallb (fun e => clean_text (snd e)) t = true ->
  clean_text s = true ->
  apply_table t s = apply_table (word_entries t) s.
Proof.
  unfold apply_table, word_entries, dotted_or_word.
  induction t as [|[k v] t IH]; intros s Hk Hv Hs; [reflexivity|].
  cbn [forallb fst snd] in Hk, Hv.
  apply andb_true_iff in Hk as [Hk Hks].
  apply andb_true_iff in Hv as [Hv Hvs].
  cbn [filter fold_left fst snd].
  destruct (word_token k) eqn:Ew.
  - cbn [fold_left fst snd]. apply IH; auto.
    unfold clean_text in *. apply over_re_sub; auto.
  - cbn [orb] in Hk. apply existsb_exists in Hk as (x & Hx & Hc).
    unfold chr_eqb in Hc. apply Ascii.eqb_eq in Hc. subst x.
    unfold re_sub.
    rewrite (sub_word_absent k v "."%char s None Hx
               (clean_text_no_period s Hs)).
    apply IH; auto.
Qed.

Section DeadEntries.

Variable SUFFIX_MAP DIR_MAP STATE_MAP : list (str * str).
Variable po_box_line : str -> str.

Hypothesis dir_keys : dotted_or_word DIR_MAP = true.
Hypothesis dir_clean :
  forallb (fun e => clean_text (snd e)) DIR_MAP = true.
Hypothesis po_box_clean :
  forall s, clean_text s = true -> clean_text (po_box_line s) = true.

Lemma replace_suffixes_and_dirs_word_entries : forall s,
  clean_text s = true ->
  replace_suffixes_and_dirs SUFFIX_MAP DIR_MAP s
  = replace_suffixes_and_dirs SUFFIX_MAP (word_entries DIR_MAP) s.
Proof.
  intros s H. unfold replace_suffixes_and_dirs.
  destruct (negb (truthy s)); [reflexivity|]. cbv zeta.
  rewrite (apply_table_word_entries DIR_MAP s dir_keys dir_clean H).
  reflexivity.
Qed.

Lemma normalizer_word_entries : forall a1 a2 c st z,
  standardize_address_components_local SUFFIX_MAP DIR_MAP STATE_MAP
    po_box_line a1 a2 c st z
  = standardize_address_components_local SUFFIX_MAP (word_entries DIR_MAP)
      STATE_MAP po_box_line a1 a2 c st z.
Proof.
  intros a1 a2 c st z. unfold standardize_address_components_local.
  destruct (if is_some (re_search POBOX_RE (upper_and_cleanup (Some a1)))
            then _ else _) as [x1 x2] eqn:E.
  apply (lines_clean po_box_line po_box_clean) in E as [H1 H2];
    [| apply upper_and_cleanup_clean
     | destruct (truthy_opt a2); [apply upper_and_cleanup_clean|reflexivity]].
  cbv zeta.
  assert (H3 : clean_text
            (if truthy x2
             then squeeze (py_replace (L "SUITE") (L "STE")
                    (py_replace (L "APARTMENT") (L "APT") x2))
             else x2) = true).
  { destruct (truthy x2); auto. unfold clean_text.
    apply over_squeeze; auto. apply over_replace; auto.
    apply over_replace; auto. }
  rewrite <- (replace_suffixes_and_dirs_word_entries x1 H1).
  rewrite <- (replace_suffixes_and_dirs_word_entries _ H3).
  reflexivity.
Qed.

End DeadEntries.

(** X12.  The four dotted entries of [DIR_MAP] ([N.], [S.], [E.], [W.])
    never fire in the Component Normalizer of either file: the cleanup has
    removed every period before the tables are applied, so the result is the
    one the table without these entries gives, whatever the input. *)
Theorem dotted_directions_never_fire : forall a1 a2 c st z,
  Plain.standardize_address_components_local a1 a2 c st z
  = standardize_address_components_local Plain.SUFFIX_MAP
      (word_entries Plain.DIR_MAP) Plain.STATE_MAP Plain.po_box_line
      a1 a2 c st z
  /\ Usps.standardize_address_components_local a1 a2 c st z
     = standardize_address_components_local Usps.SUFFIX_MAP
         (word_entries Usps.DIR_MAP) Usps.STATE_MAP Usps.po_box_line
         a1 a2 c st z.
Proof.
  intros a1 a2 c st z. split.
  - apply normalizer_word_entries.
    + vm_compute; reflexivity.
    + vm_compute; reflexivity.
    + exact po_box_inline_clean.
  - apply normalizer_word_entries.
    + vm_compute; reflexivity.
    + vm_compute; reflexivity.
    + exact normalize_po_box_clean.
Qed.

(** The entries that are dropped, and a line on which a dotted direction is
    left to the cleanup. *)
Example dotted_directions_dropped :
  filter (fun e => negb (word_token (fst e))) Usps.DIR_MAP
  = [(L "N.", L "N"); (L "S.", L "S"); (L "E.", L "E"); (L "W.", L "W")]
  /\ address1 (Usps.standardize_address_components_local
                 (L "12 N. Main St.") None None None None)
     = L "12 N MAIN ST".
Proof. split; vm_compute; reflexivity. Qed.

(** ** The output header *)

Lemma std_field_prefix : forall c fields r,
  std_field c fields = Some r ->
  ~ In r fields /\ exists rest, r = (L "std_" ++ c) ++ rest.
Proof.
  intros c fields r H. unfold std_field in H. cbv zeta in H.
  apply free_name_result in H as (Hfree & [->|(_ & k & _ & -> & _)]).
  - split; [exact Hfree|]. exists []. rewrite app_nil_r. reflexivity.
  - split; [exact Hfree|]. exists (L "_" ++ decimal k). reflexivity.
Qed.

(** X18.  With the default columns the five output columns are named for
    every input header, none of the names is an input column, and the five
    names are pairwise different. *)
Theorem default_output_columns : forall input_fieldnames : list str,
  exists names,
    std_fields default_columns input_fieldnames = Some names
    /\ length names = 5
    /\ NoDup names
    /\ forall n, In n names -> ~ In n input_fieldnames.
Proof.
  intro fields. unfold default_columns. cbn [std_fields].
  destruct (std_field_returns (L "address1") fields) as [r1 E1].
  destruct (std_field_returns (L "address2") fields) as [r2 E2].
  destruct (std_field_returns (L "city") fields) as [r3 E3].
  destruct (std_field_returns (L "state") fields) as [r4 E4].
  destruct (std_field_returns (L "zip") fields) as [r5 E5].
  rewrite E1, E2, E3, E4, E5.
  apply std_field_prefix in E1 as (F1 & x1 & P1).
  apply std_field_prefix in E2 as (F2 & x2 & P2).
  apply std_field_prefix in E3 as (F3 & x3 & P3).
  apply std_field_prefix in E4 as (F4 & x4 & P4).
  apply std_field_prefix in E5 as (F5 & x5 & P5).
  exists [r1; r2; r3; r4; r5]. split; [reflexivity|].
  split; [reflexivity|]. split.
  - cbn in P1, P2, P3, P4, P5. subst r1 r2 r3 r4 r5.
    repeat constructor; cbn [In]; intro H;
      repeat (destruct H as [H|H]; [discriminate H|]); exact H.
  - intros n [<-|[<-|[<-|[<-|[<-|[]]]]]]; assumption.
Qed.

(** With columns of the caller's choice two output columns can get one
    name: the second is not checked against the first. *)
Example std_fields_can_collide :
  std_fields [L "x"; L "x_1"; L "city"; L "state"; L "zip"] [L "std_x"]
  = Some [L "std_x_1"; L "std_x_1"; L "std_city"; L "std_state";
          L "std_zip"].
Proof. vm_compute. reflexivity. Qed.

(** ** The PO Box line of the USPS file *)

Lemma replace_removes_char : forall d s,
  forallb (fun c => negb (chr_eqb d c)) (py_replace [d] [] s) = true.
Proof.
  intros d s. rewrite replace_one_char. induction s as [|c s IH]; auto.
  cbn [flat_map]. destruct (chr_eqb d c) eqn:E; cbn [app]; auto.
  cbn [forallb]. rewrite E, IH. reflexivity.
Qed.

(** X17.  [normalize_po_box] returns a line without a period, trimmed and
    with single blanks only, whatever it is given. *)
Theorem normalize_po_box_shape : forall address : str,
  forallb no_period (normalize_po_box address) = true
  /\ tidy (normalize_po_box address).
Proof.
  intro address. unfold normalize_po_box.
  destruct address as [|c s]; [repeat split; reflexivity|].
  cbn [truthy negb]. cbv zeta. split.
  - unfold no_period. apply over_squeeze; [reflexivity|].
    apply replace_removes_char.
  - apply squeeze_tidy.
Qed.

